(** * Floor-plan annotator: point store, viewport arithmetic and marker metrics

    A shallow embedding of [store.ts] (the [Store] singleton), of the viewport
    arithmetic of [canvas.ts] ([zoom], the wheel handler, [fitToContent],
    [updateTransform], [createPointShape], [updateAllPointSizes]) and of the
    import path of [main.ts] ([handleJSONImport]).

    JavaScript numbers are kept abstract behind the interface [Number], which
    lists the operations the code applies to them.  Two instances are given:
    exact rationals [Q], on which the algebraic laws are proved, and IEEE
    binary64 ([PrimFloat.float]), on which concrete runs are evaluated exactly
    as a JavaScript engine evaluates them. Row numbers are integers ([Z]);
    the one other row the program can make, the NaN that [parseInt] returns
    for a row field without digits, is treated in [Parsed]. *)

From Stdlib Require Import ZArith QArith Qminmax Qabs Qround Lia Lqa.
From Stdlib Require Import Floats.PrimFloat Floats.FloatOps Floats.SpecFloat.
From Stdlib Require Import Numbers.Cyclic.Int63.Uint63.
From Stdlib Require Import Strings.String Numbers.DecimalString.
From Stdlib Require Numbers.DecimalZ Numbers.DecimalPos.
From Stdlib Require Import Sorting.Sorted Sorting.Permutation.
From stdpp Require Import base option list sorting gmap strings.

Set Default Proof Using "Type".
Set Warnings "-inexact-float".
Local Open Scope Z_scope.

(** ** Numbers *)

(** The operations of a JavaScript [number] that the program uses. *)
Class Number (num : Type) := {
  lit : Q -> num;               (* a numeric literal such as [0.1] or [24] *)
  nadd : num -> num -> num;     (* a + b *)
  nsub : num -> num -> num;     (* a - b *)
  nmul : num -> num -> num;     (* a * b *)
  ndiv : num -> num -> num;     (* a / b *)
  nmax : num -> num -> num;     (* Math.max(a, b) *)
  nmin : num -> num -> num;     (* Math.min(a, b) *)
  nlt : num -> num -> bool;     (* a < b *)
  truthy : num -> bool          (* ToBoolean: what [a || d] and [if (a)] test *)
}.

Declare Scope num_scope.
Delimit Scope num_scope with num.
Infix "+" := nadd : num_scope.
Infix "-" := nsub : num_scope.
Infix "*" := nmul : num_scope.
Infix "/" := ndiv : num_scope.

(** Exact rational arithmetic: no rounding, no NaN, no infinities.  Division
    by zero is outside this instance's domain (Stdlib makes it [0]), so the
    theorems that divide carry the hypothesis that the divisor is positive. *)
#[export] Instance Number_Q : Number Q := {|
  lit q := q;
  nadd := Qplus;
  nsub := Qminus;
  nmul := Qmult;
  ndiv := Qdiv;
  nmax := Qmax;
  nmin := Qmin;
  nlt a b := negb (Qle_bool b a);
  truthy a := negb (Qeq_bool a 0)
|}.

(** IEEE binary64, the arithmetic a JavaScript engine runs. *)
Module Binary64.
Definition of_Z (z : Z) : float :=
  match z with
  | Z0 => PrimFloat.zero
  | Zpos _ => PrimFloat.of_uint63 (Uint63.of_Z z)
  | Zneg p => PrimFloat.opp (PrimFloat.of_uint63 (Uint63.of_Z (Zpos p)))
  end.

(** A decimal literal [n / d] with [n] and [d] below [2^53]: both are
    exact, and the division rounds their quotient to the nearest double,
    which is the value the literal denotes. *)
Definition of_Q (q : Q) : float :=
  PrimFloat.div (of_Z (Qnum q)) (of_Z (Zpos (Qden q))).

(** [Math.max]: NaN if an argument is NaN, and [+0] above [-0]. *)
Definition max (a b : float) : float :=
  if (PrimFloat.is_nan a || PrimFloat.is_nan b)%bool then PrimFloat.nan
  else if PrimFloat.ltb a b then b
  else if PrimFloat.ltb b a then a
  else if PrimFloat.get_sign a then b else a.

(** [Math.min]: NaN if an argument is NaN, and [-0] below [+0]. *)
Definition min (a b : float) : float :=
  if (PrimFloat.is_nan a || PrimFloat.is_nan b)%bool then PrimFloat.nan
  else if PrimFloat.ltb a b then a
  else if PrimFloat.ltb b a then b
  else if PrimFloat.get_sign a then a else b.

(** A number is falsy when it is [0], [-0] or NaN. *)
Definition to_boolean (a : float) : bool :=
  negb (PrimFloat.is_nan a || PrimFloat.is_zero a)%bool.
End Binary64.

#[export] Instance Number_float : Number float := {|
  lit := Binary64.of_Q;
  nadd := PrimFloat.add;
  nsub := PrimFloat.sub;
  nmul := PrimFloat.mul;
  ndiv := PrimFloat.div;
  nmax := Binary64.max;
  nmin := Binary64.min;
  nlt := PrimFloat.ltb;
  truthy := Binary64.to_boolean
|}.

(** [String(n)] and [`${n}`] for an integer [n]. *)
Definition showZ (z : Z) : string := NilZero.string_of_int (Z.to_int z).

(** ** types.ts *)

Definition Signal (num : Type) : Type := list (string * num).

Record PlateData (num : Type) := mkPlateData {
  plate : string;
  signals : Signal num
}.
Arguments mkPlateData {num}.
Arguments plate {num}.
Arguments signals {num}.

Module Point.
Record t (num : Type) := mk {
  id : string;
  x : num;
  y : num;
  size : num;
  rowNum : Z
}.
Arguments mk {num}.
Arguments id {num}.
Arguments x {num}.
Arguments y {num}.
Arguments size {num}.
Arguments rowNum {num}.
End Point.
Abbreviation PointData := Point.t.

Inductive Mode := draw | pan.

Record AppState (num : Type) := mkAppState {
  mode : Mode;
  scale : num;
  offsetX : num;
  offsetY : num;
  circleSize : num;
  selectedPointId : option string;
  isDragging : bool;
  dragStartX : num;
  dragStartY : num
}.
Arguments mkAppState {num}.
Arguments mode {num}.
Arguments scale {num}.
Arguments offsetX {num}.
Arguments offsetY {num}.
Arguments circleSize {num}.
Arguments selectedPointId {num}.
Arguments isDragging {num}.
Arguments dragStartX {num}.
Arguments dragStartY {num}.

(** A JSON object read from an import file.  [rowNum], the legacy alias
    [row], [size] and [id] may be missing. *)
Module Item.
Record t (num : Type) := mk {
  id : option string;
  x : num;
  y : num;
  size : option num;
  rowNum : option Z;
  row : option Z
}.
Arguments mk {num}.
Arguments id {num}.
Arguments x {num}.
Arguments y {num}.
Arguments size {num}.
Arguments rowNum {num}.
Arguments row {num}.
End Item.

(** A record produced by [exportFullData]: the point's fields followed by the
    spread of its plate record, if there is one. *)
Module Exported.
Record t (num : Type) := mk {
  row : Z;
  x : num;
  y : num;
  size : num;
  plate : option string;
  signals : option (Signal num)
}.
Arguments mk {num}.
Arguments row {num}.
Arguments x {num}.
Arguments y {num}.
Arguments size {num}.
Arguments plate {num}.
Arguments signals {num}.
End Exported.

(** ** Array.prototype.sort

    [sort(cmp)] is stable, and [cmp a b > 0] asks for [a] after [b].  For a
    comparator that is a difference of integer keys the stable result is
    unique; it is computed here by stable insertion. *)
Section Sort.
Context {A : Type} (cmp : A -> A -> Z).

Fixpoint insertWith (a : A) (l : list A) : list A :=
  match l with
  | [] => [a]
  | b :: l' => if 0 <? cmp a b then b :: insertWith a l' else a :: b :: l'
  end.

Fixpoint sortWith (l : list A) : list A :=
  match l with
  | [] => []
  | a :: l' => insertWith a (sortWith l')
  end.
End Sort.

(** ** store.ts *)

(** What [localStorage] holds under [STORAGE_KEY], as [loadFromLocal] sees it. *)
Inductive Stored (num : Type) :=
  | NotJSON                                  (* [JSON.parse] throws, or the string is empty *)
  | NotArray                                 (* JSON, but [Array.isArray] is false *)
  | PointArray (l : list (PointData num)).   (* what [saveToLocal] writes *)
Arguments NotJSON {num}.
Arguments NotArray {num}.
Arguments PointArray {num}.

(** The fields of the [Store] singleton.  The listener set is represented by
    [notified], the number of times [notify] has run the listeners;
    [savedPoints] is the [localStorage] entry and [quotaExceeded] tells
    whether [localStorage.setItem] throws. *)
Record Store (num : Type) := mkStore {
  state : AppState num;
  points : list (PointData num);
  excelData : list (PlateData num);
  imageBase64 : option string;
  notified : nat;
  savedPoints : option (Stored num);
  quotaExceeded : bool
}.
Arguments mkStore {num}.
Arguments state {num}.
Arguments points {num}.
Arguments excelData {num}.
Arguments imageBase64 {num}.
Arguments notified {num}.
Arguments savedPoints {num}.
Arguments quotaExceeded {num}.

(** The source of [Date.now()] and of
    [Math.random().toString(36).substr(2, 9)]: the [n]-th identifier that
    [importPoints] builds reads the pair [env n]. *)
Definition Entropy : Type := nat -> Z * string.

Section StoreOps.
Context {num : Type} `{!Number num}.
Implicit Types (s : Store num) (p : PointData num).

Definition set_state (st : AppState num) s : Store num :=
  mkStore st (points s) (excelData s) (imageBase64 s) (notified s)
          (savedPoints s) (quotaExceeded s).
Definition set_points (pts : list (PointData num)) s : Store num :=
  mkStore (state s) pts (excelData s) (imageBase64 s) (notified s)
          (savedPoints s) (quotaExceeded s).
Definition set_selected (sel : option string) (st : AppState num) : AppState num :=
  mkAppState (mode st) (scale st) (offsetX st) (offsetY st) (circleSize st)
             sel (isDragging st) (dragStartX st) (dragStartY st).

Definition initialState : AppState num :=
  mkAppState draw (lit 1) (lit 0) (lit 0) (lit 24) None false (lit 0) (lit 0).

(** The store as constructed, in a browser whose storage holds [saved]. *)
Definition newStore (saved : option (Stored num)) (full : bool) : Store num :=
  mkStore initialState [] [] None 0 saved full.

Definition notify s : Store num :=
  mkStore (state s) (points s) (excelData s) (imageBase64 s) (S (notified s))
          (savedPoints s) (quotaExceeded s).

Definition saveToLocal s : Store num :=
  if quotaExceeded s then s
  else mkStore (state s) (points s) (excelData s) (imageBase64 s) (notified s)
               (Some (PointArray (points s))) (quotaExceeded s).

Definition getPlateData (rowNum : Z) s : option (PlateData num) :=
  if rowNum - 1 <? 0 then None else excelData s !! Z.to_nat (rowNum - 1).

Definition getPointById (id : string) s : option (PointData num) :=
  snd <$> list_find (fun p => Point.id p = id) (points s).

Definition setMode (m : Mode) s : Store num :=
  let st := state s in
  notify (set_state (mkAppState m (scale st) (offsetX st) (offsetY st) (circleSize st)
                       (selectedPointId st) (isDragging st) (dragStartX st)
                       (dragStartY st)) s).

Definition setScale (sc : num) s : Store num :=
  let st := state s in
  notify (set_state (mkAppState (mode st) (nmax (lit 0.1) (nmin (lit 6) sc))
                       (offsetX st) (offsetY st) (circleSize st)
                       (selectedPointId st) (isDragging st) (dragStartX st)
                       (dragStartY st)) s).

Definition setOffset (x y : num) s : Store num :=
  let st := state s in
  notify (set_state (mkAppState (mode st) (scale st) x y (circleSize st)
                       (selectedPointId st) (isDragging st) (dragStartX st)
                       (dragStartY st)) s).

Definition setSelectedPointId (sel : option string) s : Store num :=
  notify (set_state (set_selected sel (state s)) s).

Definition byRowNum (a b : PointData num) : Z := Point.rowNum a - Point.rowNum b.

Definition hasRowNum (rowNum : Z) s : bool :=
  existsb (fun p => Point.rowNum p =? rowNum) (points s).

Definition addPoint p s : Store num :=
  if existsb (fun q => Point.rowNum q =? Point.rowNum p) (points s) then s
  else notify (saveToLocal (set_points (sortWith byRowNum (points s ++ [p])) s)).

Definition removePoint (id : string) s : option (PointData num) * Store num :=
  match list_find (fun p => Point.id p = id) (points s) with
  | None => (None, s)
  | Some (index, removed) =>
      let s1 := set_points (delete index (points s)) s in
      let s2 := if decide (selectedPointId (state s1) = Some id)
                then set_state (set_selected None (state s1)) s1
                else s1 in
      (Some removed, notify (saveToLocal s2))
  end.

Definition clearAllPoints s : Store num :=
  notify (saveToLocal (set_state (set_selected None (state s)) (set_points [] s))).

(** The [for] loop of [getNextAvailableRow]: [i] is the loop variable and
    [n] the number of iterations left before [i] exceeds 215. *)
Fixpoint scanRows (existingRows : gset Z) (i : Z) (n : nat) : Z :=
  match n with
  | O => 215
  | S n' => if bool_decide (i ∈ existingRows)
            then scanRows existingRows (i + 1) n'
            else i
  end.

Definition getNextAvailableRow s : Z :=
  let existingRows : gset Z := list_to_set (map Point.rowNum (points s)) in
  scanRows existingRows 1 215.

Definition loadFromLocal s : list (PointData num) * Store num :=
  match savedPoints s with
  | Some (PointArray parsed) => (parsed, notify (set_points parsed s))
  | _ => ([], s)
  end.

Definition freshId (rowNum : Z) (e : Z * string) : string :=
  "c_" +:+ showZ rowNum +:+ "_" +:+ showZ (fst e) +:+ "_" +:+ snd e.

(** The body of the [forEach] of [importPoints]: the list built so far and
    the number of identifiers generated so far. *)
Definition importItem (env : Entropy) (acc : list (PointData num) * nat)
    (item : Item.t num) : list (PointData num) * nat :=
  let (pts, n) := acc in
  match Item.rowNum item with
  | Some r =>
      if (1 <=? r) && (r <=? 215) then
        (pts ++ [Point.mk (freshId r (env n)) (Item.x item) (Item.y item)
                   (match Item.size item with
                    | Some sz => if truthy sz then sz else lit 24
                    | None => lit 24
                    end) r],
         S n)
      else (pts, n)
  | None => (pts, n)
  end.

Definition importPoints (env : Entropy) (data : list (Item.t num)) s : Store num :=
  let pts := fst (fold_left (importItem env) data ([], 0%nat)) in
  notify (saveToLocal (set_points (sortWith byRowNum pts) s)).

Definition exportFullData s : list (Exported.t num) :=
  map (fun p =>
         let plateData := getPlateData (Point.rowNum p) s in
         Exported.mk (Point.rowNum p) (Point.x p) (Point.y p) (Point.size p)
                     (plate <$> plateData) (signals <$> plateData))
      (points s).
End StoreOps.


(** ** canvas.ts *)

(** Position and uniform scale of a Konva layer, as [updateTransform] sets them. *)
Record Layer (num : Type) := mkLayer {
  layerX : num;
  layerY : num;
  layerScale : num
}.
Arguments mkLayer {num}.
Arguments layerX {num}.
Arguments layerY {num}.
Arguments layerScale {num}.

(** The group that [createPointShape] builds for a point: its position in the
    layer, the circle's radius and stroke width, the label and its font size. *)
Record Marker (num : Type) := mkMarker {
  markerX : num;
  markerY : num;
  radius : num;
  strokeWidth : num;
  fontSize : num;
  label : string
}.
Arguments mkMarker {num}.
Arguments markerX {num}.
Arguments markerY {num}.
Arguments radius {num}.
Arguments strokeWidth {num}.
Arguments fontSize {num}.
Arguments label {num}.

(** The fields of [CanvasManager] that the viewport code reads and writes:
    the container's client size, the background image's width and height if
    one is loaded, the two transformed layers and the map from point id to
    marker. *)
Record CanvasManager (num : Type) := mkCanvasManager {
  clientWidth : num;
  clientHeight : num;
  backgroundImage : option (num * num);
  imageLayer : Layer num;
  pointsLayer : Layer num;
  pointShapes : gmap string (Marker num)
}.
Arguments mkCanvasManager {num}.
Arguments clientWidth {num}.
Arguments clientHeight {num}.
Arguments backgroundImage {num}.
Arguments imageLayer {num}.
Arguments pointsLayer {num}.
Arguments pointShapes {num}.

(** The canvas manager together with the store singleton it works on. *)
Record App (num : Type) := mkApp {
  canvasManager : CanvasManager num;
  store : Store num
}.
Arguments mkApp {num}.
Arguments canvasManager {num}.
Arguments store {num}.

(** What [JSON.parse] makes of the file chosen for import (main.ts). *)
Inductive ParsedFile (num : Type) :=
  | ParseError
  | ParsedOther
  | ParsedArray (data : list (Item.t num)).
Arguments ParseError {num}.
Arguments ParsedOther {num}.
Arguments ParsedArray {num}.

Section Canvas.
Context {num : Type} `{!Number num}.
Implicit Types (c : CanvasManager num) (s : Store num) (app : App num).

Definition set_pointShapes (shapes : gmap string (Marker num)) c : CanvasManager num :=
  mkCanvasManager (clientWidth c) (clientHeight c) (backgroundImage c)
                  (imageLayer c) (pointsLayer c) shapes.

Definition newCanvasManager (width height : num) : CanvasManager num :=
  mkCanvasManager width height None
                  (mkLayer (lit 0) (lit 0) (lit 1)) (mkLayer (lit 0) (lit 0) (lit 1)) ∅.

(** The metrics that [createPointShape] and [updateAllPointSizes] both give
    a marker of nominal size [size] at viewport scale [sc]. *)
Definition visualSize (size sc : num) : num := (size / sc)%num.
Definition circleRadius (size sc : num) : num := (visualSize size sc / lit 2)%num.
Definition circleStrokeWidth (sc : num) : num := nmax (lit 1) (lit 2 / sc)%num.
Definition textFontSize (sc : num) : num := nmax (lit 8) (lit 11 / sc)%num.

Definition createPointShape (point : PointData num) c s : CanvasManager num :=
  let st := state s in
  let group :=
    mkMarker (Point.x point) (Point.y point)
             (circleRadius (Point.size point) (scale st))
             (circleStrokeWidth (scale st))
             (textFontSize (scale st))
             (showZ (Point.rowNum point)) in
  set_pointShapes (<[Point.id point := group]> (pointShapes c)) c.

Definition updateAllPointSizes c s : CanvasManager num :=
  let st := state s in
  set_pointShapes
    (map_imap (fun id group =>
                 Some match getPointById id s with
                      | None => group
                      | Some point =>
                          mkMarker (markerX group) (markerY group)
                                   (circleRadius (Point.size point) (scale st))
                                   (circleStrokeWidth (scale st))
                                   (textFontSize (scale st))
                                   (label group)
                      end)
              (pointShapes c))
    c.

Definition updateTransform c s : CanvasManager num :=
  let st := state s in
  let layer := mkLayer (offsetX st) (offsetY st) (scale st) in
  updateAllPointSizes
    (mkCanvasManager (clientWidth c) (clientHeight c) (backgroundImage c)
                     layer layer (pointShapes c))
    s.

Definition renderAllPoints c s : CanvasManager num :=
  fold_left (fun c' point => createPointShape point c' s) (points s)
            (set_pointShapes ∅ c).

Definition zoom (factor : num) app : App num :=
  let c := canvasManager app in
  let s := store app in
  let st := state s in
  let containerWidth := clientWidth c in
  let containerHeight := clientHeight c in
  let centerX := (containerWidth / lit 2)%num in
  let centerY := (containerHeight / lit 2)%num in
  let oldScale := scale st in
  let newScale := nmax (lit 0.1) (nmin (lit 6) (oldScale * factor)%num) in
  let mousePointToX := ((centerX - offsetX st) / oldScale)%num in
  let mousePointToY := ((centerY - offsetY st) / oldScale)%num in
  let newOffsetX := (centerX - mousePointToX * newScale)%num in
  let newOffsetY := (centerY - mousePointToY * newScale)%num in
  let s' := setOffset newOffsetX newOffsetY (setScale newScale s) in
  mkApp (updateTransform c s') s'.

(** The wheel handler: [pos] is [stage.getPointerPosition()], which may be
    null, and [deltaY] the event's scroll amount. *)
Definition onWheel (deltaY : num) (pos : option (num * num)) app : App num :=
  let c := canvasManager app in
  let s := store app in
  let currentState := state s in
  match pos with
  | None => app
  | Some (posX, posY) =>
      let oldScale := scale currentState in
      let factor := if nlt deltaY (lit 0) then lit 1.12 else lit 0.89 in
      let newScale := nmax (lit 0.1) (nmin (lit 6) (oldScale * factor)%num) in
      let mousePointToX := ((posX - offsetX currentState) / oldScale)%num in
      let mousePointToY := ((posY - offsetY currentState) / oldScale)%num in
      let newOffsetX := (posX - mousePointToX * newScale)%num in
      let newOffsetY := (posY - mousePointToY * newScale)%num in
      let s' := setOffset newOffsetX newOffsetY (setScale newScale s) in
      mkApp (updateTransform c s') s'
  end.

Definition fitToContent app : App num :=
  let c := canvasManager app in
  let s := store app in
  match backgroundImage c with
  | None => app
  | Some (imageWidth, imageHeight) =>
      let containerWidth := clientWidth c in
      let containerHeight := clientHeight c in
      let contentLeft := (imageWidth * lit 0.15)%num in
      let contentTop := (imageHeight * lit 0.28)%num in
      let contentWidth := (imageWidth * lit 0.72)%num in
      let contentHeight := (imageHeight * lit 0.48)%num in
      let sc := (nmin (containerWidth / contentWidth) (containerHeight / contentHeight)
                 * lit 0.92)%num in
      let clampedScale := nmax (lit 0.3) (nmin (lit 4) sc) in
      let offX := (containerWidth / lit 2
                   - (contentLeft + contentWidth / lit 2) * clampedScale)%num in
      let offY := (containerHeight / lit 2
                   - (contentTop + contentHeight / lit 2) * clampedScale)%num in
      let s' := setOffset offX offY (setScale clampedScale s) in
      mkApp (updateTransform c s') s'
  end.

(** ** main.ts *)

(** [{...item, rowNum: item.rowNum || item.row}] *)
Definition normalizeItem (item : Item.t num) : Item.t num :=
  Item.mk (Item.id item) (Item.x item) (Item.y item) (Item.size item)
          (match Item.rowNum item with
           | Some r => if r =? 0 then Item.row item else Some r
           | None => Item.row item
           end)
          (Item.row item).

(** The [reader.onload] callback of [handleJSONImport]; [confirmed] is the
    answer to the [confirm] dialog. *)
Definition handleJSONImport (env : Entropy) (file : ParsedFile num) (confirmed : bool)
    app : App num :=
  match file with
  | ParsedArray data =>
      if confirmed then
        let s' := importPoints env (map normalizeItem data) (store app) in
        mkApp (renderAllPoints (canvasManager app) s') s'
      else app
  | _ => app
  end.

(** An exported record as [JSON.parse] returns it when the export file is
    chosen for import: it has [row], [x], [y] and [size], and neither
    [rowNum] nor [id]. *)
Definition readExported (r : Exported.t num) : Item.t num :=
  Item.mk None (Exported.x r) (Exported.y r) (Some (Exported.size r)) None
          (Some (Exported.row r)).
End Canvas.


(** * The rest of the program *)

(** ** store.ts, continued *)

Section StoreMore.
Context {num : Type} `{!Number num}.
Implicit Types (s : Store num).

Definition setCircleSize (size : num) s : Store num :=
  let st := state s in
  notify (set_state (mkAppState (mode st) (scale st) (offsetX st) (offsetY st) size
                       (selectedPointId st) (isDragging st) (dragStartX st)
                       (dragStartY st)) s).

(** [setDragging] does not notify. *)
Definition setDragging (dragging : bool) (startX startY : num) s : Store num :=
  let st := state s in
  set_state (mkAppState (mode st) (scale st) (offsetX st) (offsetY st)
               (circleSize st) (selectedPointId st) dragging startX startY) s.

Definition setExcelData (data : list (PlateData num)) s : Store num :=
  notify (mkStore (state s) (points s) data (imageBase64 s) (notified s)
                  (savedPoints s) (quotaExceeded s)).

(** [setImageBase64] and [loadImageFromLocal] work on the [localStorage]
    entry under [IMAGE_STORAGE_KEY], passed in and out as [savedImage];
    [throws] tells whether [setItem] throws for this image.  A null or empty
    string is falsy and is not written. *)
Definition setImageBase64 (base64 : option string) (throws : bool)
    (savedImage : option string) s : option string * Store num :=
  let s1 := mkStore (state s) (points s) (excelData s) base64 (notified s)
                    (savedPoints s) (quotaExceeded s) in
  let savedImage' :=
    match base64 with
    | Some b => if decide (b = "") then savedImage
                else if throws then savedImage else Some b
    | None => savedImage
    end in
  (savedImage', notify s1).

Definition loadImageFromLocal (savedImage : option string) s
    : option string * Store num :=
  match savedImage with
  | Some saved =>
      if decide (saved = "") then (None, s)
      else (Some saved,
            mkStore (state s) (points s) (excelData s) (Some saved) (notified s)
                    (savedPoints s) (quotaExceeded s))
  | None => (None, s)
  end.
End StoreMore.

(** ** canvas.ts, continued *)

Section CanvasMore.
Context {num : Type} `{!Number num}.
Implicit Types (c : CanvasManager num) (s : Store num) (app : App num).

Definition isPan (m : Mode) : bool :=
  match m with pan => true | draw => false end.

(** The [mousedown] handler; [button] is [e.evt.button]. *)
Definition onMouseDown (button : Z) (pos : option (num * num)) app : App num :=
  let currentState := state (store app) in
  if (button =? 0) && isPan (mode currentState) then
    match pos with
    | Some (posX, posY) =>
        mkApp (canvasManager app)
              (setDragging true (posX - offsetX currentState)%num
                                (posY - offsetY currentState)%num (store app))
    | None => app
    end
  else app.

(** The [mousemove] handler. *)
Definition onMouseMove (pos : option (num * num)) app : App num :=
  let currentState := state (store app) in
  if isDragging currentState && isPan (mode currentState) then
    match pos with
    | Some (posX, posY) =>
        let s' := setOffset (posX - dragStartX currentState)%num
                            (posY - dragStartY currentState)%num (store app) in
        mkApp (updateTransform (canvasManager app) s') s'
    | None => app
    end
  else app.

(** The [mouseup mouseleave] handler: [setDragging(false)], whose start
    coordinates default to 0. *)
Definition onMouseUp app : App num :=
  mkApp (canvasManager app) (setDragging false (lit 0) (lit 0) (store app)).

(** [selectPoint], as far as the store goes; the stroke and shadow of the
    circles are not part of [Marker]. *)
Definition selectPoint (id : string) app : App num :=
  mkApp (canvasManager app) (setSelectedPointId (Some id) (store app)).

(** [removePointById] returns the row of the removed point, which its toast
    shows, or nothing when no point has the id. *)
Definition removePointById (id : string) app : option Z * App num :=
  match removePoint id (store app) with
  | (Some removed, s') =>
      (Some (Point.rowNum removed),
       mkApp (set_pointShapes (delete id (pointShapes (canvasManager app)))
                              (canvasManager app)) s')
  | (None, s') => (None, mkApp (canvasManager app) s')
  end.

(** [CanvasManager.clearAllPoints] *)
Definition canvasClearAllPoints app : App num :=
  mkApp (set_pointShapes ∅ (canvasManager app)) (clearAllPoints (store app)).

(** [CanvasManager.setMode] *)
Definition canvasSetMode (m : Mode) app : App num :=
  mkApp (canvasManager app) (setMode m (store app)).

(** ** main.ts, continued *)

(** The fallback of [loadPlateData]: 215 placeholder records. *)
Definition placeholderData : list (PlateData num) :=
  map (fun i => mkPlateData ("Point " +:+ showZ (Z.of_nat i)) [("Signal", lit (-70))])
      (seq 1 215).

(** [loadPlateData]; [fetched] is the parsed [plate_data.json], if the fetch
    and the parse succeed. *)
Definition loadPlateData (fetched : option (list (PlateData num))) s : Store num :=
  match fetched with
  | Some data => setExcelData data s
  | None => setExcelData placeholderData s
  end.

Definition loadSavedPoints app : App num :=
  let (savedPoints, s') := loadFromLocal (store app) in
  if (0 <? length savedPoints)%nat
  then mkApp (renderAllPoints (canvasManager app) s') s'
  else mkApp (canvasManager app) s'.

(** ** ui.ts *)

(** [positionTooltip]: the [left] and [top] it assigns, in pixels, for a
    tooltip of the given size in a window of the given inner size. *)
Definition positionTooltip (mouseX mouseY width height innerWidth innerHeight : num)
    : num * num :=
  let padding := lit 15 in
  let left := (mouseX + padding)%num in
  let top := (mouseY + padding)%num in
  let left := if nlt (innerWidth - padding)%num (left + width)%num
              then (mouseX - width - padding)%num else left in
  let top := if nlt (innerHeight - padding)%num (top + height)%num
             then (mouseY - height - padding)%num else top in
  (nmax padding left, nmax padding top).
End CanvasMore.

(** ** ui.ts: the zoom display *)

(** [updateZoomDisplay] applies two further operations to a number:
    [Math.round], and the conversion to text of a template literal, which is
    needed for the results of [Math.round] only. *)
Class Rounding (num : Type) := {
  nround : num -> num;      (* Math.round(a) *)
  ntext : num -> string     (* `${a}`, for an [a] that [Math.round] returned *)
}.

(** [Math.round]: the nearest integer, halves going up. *)
Definition mathRound (v : Q) : Q := inject_Z (Qfloor (v + (1 # 2)))%Q.

#[export] Instance Rounding_Q : Rounding Q := {|
  nround := mathRound;
  ntext q := showZ (Qfloor q)
|}.

(** [Math.round] and the text of its result in binary64. *)
Module Rounded64.
Local Open Scope float_scope.

(** The largest integer that is not above [v].  A double of magnitude
    [2^52] or more is an integer; for a smaller one, [(a + 2^52) - 2^52] is
    an integer next to [a], one too high or too low at most. *)
Definition floor (v : float) : float :=
  let a := PrimFloat.abs v in
  if PrimFloat.ltb a 0x1p52 then
    let t := (a + 0x1p52) - 0x1p52 in
    if PrimFloat.get_sign v then - (if PrimFloat.ltb t a then t + 1 else t)
    else if PrimFloat.ltb a t then t - 1 else t
  else v.

(** The nearest integer, a tie going up; NaN and the infinities stay. *)
Definition round (v : float) : float :=
  if PrimFloat.ltb (PrimFloat.abs v) 0x1p52 then
    let f := floor v in
    if PrimFloat.leb 0.5 (v - f) then f + 1 else f
  else v.

(** The integer that a finite double denotes, when it denotes one. *)
Definition to_Z (v : float) : Z :=
  match Prim2SF v with
  | S754_finite sign m e =>
      let n := if (0 <=? e)%Z then (Zpos m * 2 ^ e)%Z else (Zpos m / 2 ^ (- e))%Z in
      if sign then (- n)%Z else n
  | _ => 0%Z
  end.

(** The text of an integer below [1e21] in magnitude, where exponent
    notation starts, of NaN and of the infinities. *)
Definition text (v : float) : string :=
  if PrimFloat.is_nan v then "NaN"
  else if PrimFloat.is_infinity v
       then if PrimFloat.get_sign v then "-Infinity" else "Infinity"
       else showZ (to_Z v).
End Rounded64.

#[export] Instance Rounding_float : Rounding float := {|
  nround := Rounded64.round;
  ntext := Rounded64.text
|}.

Section ZoomDisplay.
Context {num : Type} `{!Number num} `{!Rounding num}.

(** The text [updateZoomDisplay] puts in the zoom display. *)
Definition updateZoomDisplay (s : Store num) : string :=
  ntext (nround (scale (state s) * lit 100)%num) +:+ "%".
End ZoomDisplay.

(** ** The page: events in exact arithmetic *)

Section Page.
Local Open Scope Q_scope.

(** What [showToast] displays. *)
Record Toast := mkToast {
  message : string;
  isError : bool
}.

(** The application with the two pieces of the page that the handlers read
    back: the integer in the [nextRow] field, as [parseInt] reads it, and
    the toast on display.  A field that [parseInt] reads as NaN is not
    represented: what [addPoint] does with a NaN row is the subject of
    [Parsed] below. *)
Record Page := mkPage {
  pageApp : App Q;
  nextRowInput : Z;
  toast : option Toast
}.

(** The identifier of a point placed by a click at time [now]. *)
Definition placedId (nextRow now : Z) : string :=
  "c_" +:+ showZ nextRow +:+ "_" +:+ showZ now.

(** [addPointAtPosition]; [now] is [Date.now()].  The row read from the
    field is an integer here, so that passing the first guard means lying
    in 1..215; NaN passes both guards as well, which [Parsed] embeds. *)
Definition addPointAtPosition (now : Z) (x y : Q) (pg : Page) : Page :=
  let app := pageApp pg in
  let st := state (store app) in
  let nextRow := nextRowInput pg in
  if (nextRow <? 1)%Z || (215 <? nextRow)%Z then
    mkPage app nextRow (Some (mkToast "Row must be between 1 and 215" true))
  else if hasRowNum nextRow (store app) then
    mkPage app nextRow
           (Some (mkToast ("Circle " +:+ showZ nextRow +:+ " already exists!") true))
  else
    let point := Point.mk (placedId nextRow now) (mathRound x) (mathRound y)
                          (circleSize st) nextRow in
    let s' := addPoint point (store app) in
    let c' := createPointShape point (canvasManager app) s' in
    mkPage (mkApp c' s') (getNextAvailableRow s')
           (Some (mkToast ("Circle " +:+ showZ nextRow +:+ " added") false)).

(** What a click hits: the stage, the background image or a marker. *)
Inductive ClickTarget :=
  | OnStage
  | OnBackground
  | OnMarker (id : string).

(** A click.  On a marker the group's handler selects the point and stops
    the event; elsewhere the stage's handler places a point, in draw mode,
    at the image-space position of the pointer: the inverse of the image
    layer's transform (scale, then translate) applied to [pos]. *)
Definition onClick (now : Z) (target : ClickTarget) (pos : option (Q * Q))
    (pg : Page) : Page :=
  let app := pageApp pg in
  match target with
  | OnMarker id => mkPage (selectPoint id app) (nextRowInput pg) (toast pg)
  | _ =>
      if isPan (mode (state (store app))) then pg
      else match pos with
           | None => pg
           | Some (posX, posY) =>
               let layer := imageLayer (canvasManager app) in
               addPointAtPosition now
                 ((posX - layerX layer) / layerScale layer)
                 ((posY - layerY layer) / layerScale layer) pg
           end
  end.

(** A right click on a marker: [removePointById], which leaves the
    [nextRow] field alone. *)
Definition onContextMenu (id : string) (pg : Page) : Page :=
  match removePointById id (pageApp pg) with
  | (Some row, app') =>
      mkPage app' (nextRowInput pg)
             (Some (mkToast ("Circle " +:+ showZ row +:+ " removed") false))
  | (None, app') => mkPage app' (nextRowInput pg) (toast pg)
  end.

(** The delete button of the point list: [removePointById], then
    [updateNextRowInput]. *)
Definition onDeleteButton (id : string) (pg : Page) : Page :=
  if decide (id = "") then pg
  else
    let pg' := onContextMenu id pg in
    mkPage (pageApp pg') (getNextAvailableRow (store (pageApp pg'))) (toast pg').

(** The clear-all button; [confirmed] is the answer to the dialog. *)
Definition onClearAll (confirmed : bool) (pg : Page) : Page :=
  let app := pageApp pg in
  match points (store app) with
  | [] => mkPage app (nextRowInput pg) (Some (mkToast "No points to clear" false))
  | _ :: _ =>
      if confirmed then
        let app' := canvasClearAllPoints app in
        mkPage app' (getNextAvailableRow (store app'))
               (Some (mkToast "All points cleared" false))
      else pg
  end.

(** The import file input, after [reader.onload]. *)
Definition onImportFile (env : Entropy) (file : ParsedFile Q) (confirmed : bool)
    (pg : Page) : Page :=
  match file with
  | ParsedArray data =>
      if confirmed then
        let app' := handleJSONImport env file confirmed (pageApp pg) in
        mkPage app' (getNextAvailableRow (store app'))
               (Some (mkToast ("Loaded "
                               +:+ showZ (Z.of_nat (length (points (store app'))))
                               +:+ " points") false))
      else pg
  | _ => mkPage (pageApp pg) (nextRowInput pg)
                (Some (mkToast "Error loading JSON file" true))
  end.

(** [String.prototype.toLowerCase] on the ASCII letters. *)
Definition lowerAscii (a : Ascii.ascii) : Ascii.ascii :=
  let n := Ascii.nat_of_ascii a in
  if (65 <=? n)%nat && (n <=? 90)%nat then Ascii.ascii_of_nat (n + 32) else a.

Fixpoint toLowerCase (str : string) : string :=
  match str with
  | EmptyString => EmptyString
  | String a rest => String (lowerAscii a) (toLowerCase rest)
  end.

(** [handleKeyDown]; [inInput] tells whether the event's target is an
    [INPUT] element and [key] is [e.key]. *)
Definition handleKeyDown (inInput : bool) (key : string) (pg : Page) : Page :=
  let app := pageApp pg in
  let withApp app' := mkPage app' (nextRowInput pg) (toast pg) in
  if inInput then pg
  else
    let k := toLowerCase key in
    if decide (k = "d") then withApp (canvasSetMode draw app)
    else if decide (k = "p") then withApp (canvasSetMode pan app)
    else if decide (k = "f") then withApp (fitToContent app)
    else if decide (k = "delete" \/ k = "backspace") then
      match selectedPointId (state (store app)) with
      | Some selectedId =>
          if decide (selectedId = "") then pg else onDeleteButton selectedId pg
      | None => pg
      end
    else if decide (k = "+" \/ k = "=") then withApp (zoom 1.25 app)
    else if decide (k = "-") then withApp (zoom 0.8 app)
    else if decide (k = "escape") then
      withApp (mkApp (canvasManager app) (setSelectedPointId None (store app)))
    else pg.

(** The events of a session.  [TypeNextRow value] is an edit of the row
    field that leaves a text which [parseInt] reads as the integer [value]. *)
Inductive Event :=
  | Click (now : Z) (target : ClickTarget) (pos : option (Q * Q))
  | ContextMenu (id : string)
  | DeleteButton (id : string)
  | ClearAll (confirmed : bool)
  | ImportFile (env : Entropy) (file : ParsedFile Q) (confirmed : bool)
  | KeyDown (inInput : bool) (key : string)
  | TypeNextRow (value : Z)
  | Wheel (deltaY : Q) (pos : option (Q * Q))
  | MouseDown (button : Z) (pos : option (Q * Q))
  | MouseMove (pos : option (Q * Q))
  | MouseUp
  | ZoomInButton
  | ZoomOutButton
  | FitButton
  | ModeButton (m : Mode)
  | SizeSlider (size : Q).

Definition handle (ev : Event) (pg : Page) : Page :=
  let withApp app' := mkPage app' (nextRowInput pg) (toast pg) in
  match ev with
  | Click now target pos => onClick now target pos pg
  | ContextMenu id => onContextMenu id pg
  | DeleteButton id => onDeleteButton id pg
  | ClearAll confirmed => onClearAll confirmed pg
  | ImportFile env file confirmed => onImportFile env file confirmed pg
  | KeyDown inInput key => handleKeyDown inInput key pg
  | TypeNextRow value => mkPage (pageApp pg) value (toast pg)
  | Wheel deltaY pos => withApp (onWheel deltaY pos (pageApp pg))
  | MouseDown button pos => withApp (onMouseDown button pos (pageApp pg))
  | MouseMove pos => withApp (onMouseMove pos (pageApp pg))
  | MouseUp => withApp (onMouseUp (pageApp pg))
  | ZoomInButton => withApp (zoom 1.25 (pageApp pg))
  | ZoomOutButton => withApp (zoom 0.8 (pageApp pg))
  | FitButton => withApp (fitToContent (pageApp pg))
  | ModeButton m => withApp (canvasSetMode m (pageApp pg))
  | SizeSlider size =>
      withApp (mkApp (canvasManager (pageApp pg)) (setCircleSize size (store (pageApp pg))))
  end.

Definition handleAll (evs : list Event) (pg : Page) : Page :=
  fold_left (fun pg' ev => handle ev pg') evs pg.

(** A page before any event: an empty store, an untransformed canvas of the
    given size without an image, and [nextRow] showing the first free row. *)
Definition freshPage (width height : Q) : Page :=
  let app := mkApp (newCanvasManager width height) (newStore None false) in
  mkPage app (getNextAvailableRow (store app)) None.
End Page.

(** ** Rows that are not integers

    [rowNum] is a JavaScript [number]; the development above takes it in
    [Z].  The program makes a row from text in one place:
    [getNextRowInput] applies [parseInt] to the row field, and [parseInt]
    returns NaN for a text that does not start with digits, such as [.5] or
    [abc].  With NaN both comparisons of [addPointAtPosition] and the test of
    [hasRowNum] are false, so a point whose row is NaN reaches [addPoint].
    [hasRowNum], [addPoint] and [addPointAtPosition] are embedded here once
    more, over the rows that [parseInt] returns, with the fields of the
    store that they read and write.

    Once a row is NaN the comparator of [addPoint] is no longer consistent
    and ECMAScript leaves the order that [sort] produces to the
    implementation; the order [sortWith] gives then is one of the possible
    ones, and the properties stated of NaN rows do not depend on it. *)
Module Parsed.

(** What [parseInt] returns. *)
Inductive Row :=
  | Int (z : Z)
  | NaN.

(** [a === b] *)
Definition strictEq (a b : Row) : bool :=
  match a, b with
  | Int m, Int n => m =? n
  | _, _ => false
  end.

(** [a < b] *)
Definition less (a b : Row) : bool :=
  match a, b with
  | Int m, Int n => m <? n
  | _, _ => false
  end.

(** [a - b] *)
Definition minus (a b : Row) : Row :=
  match a, b with
  | Int m, Int n => Int (m - n)
  | _, _ => NaN
  end.

(** How [sort] reads what the comparator returns: NaN counts as [+0]. *)
Definition sortOrder (v : Row) : Z :=
  match v with
  | Int z => z
  | NaN => 0
  end.

(** [String(a)] and [`${a}`] *)
Definition toString (a : Row) : string :=
  match a with
  | Int z => showZ z
  | NaN => "NaN"
  end.

Record Point (num : Type) := mkPoint {
  id : string;
  x : num;
  y : num;
  size : num;
  rowNum : Row
}.
Arguments mkPoint {num}.
Arguments id {num}.
Arguments x {num}.
Arguments y {num}.
Arguments size {num}.
Arguments rowNum {num}.

(** The fields of [Store] that the three functions read and write: the
    point list, the run count of the listeners, the array last handed to
    [localStorage], if any, whether [setItem] throws, and the circle size of
    the state. *)
Record Store (num : Type) := mkStore {
  points : list (Point num);
  notified : nat;
  savedPoints : option (list (Point num));
  quotaExceeded : bool;
  circleSize : num
}.
Arguments mkStore {num}.
Arguments points {num}.
Arguments notified {num}.
Arguments savedPoints {num}.
Arguments quotaExceeded {num}.
Arguments circleSize {num}.

Section Ops.
Context {num : Type} `{!Rounding num}.
Implicit Types (s : Store num) (p : Point num).

Definition notify s : Store num :=
  mkStore (points s) (S (notified s)) (savedPoints s) (quotaExceeded s)
          (circleSize s).

Definition saveToLocal s : Store num :=
  if quotaExceeded s then s
  else mkStore (points s) (notified s) (Some (points s)) (quotaExceeded s)
               (circleSize s).

Definition byRowNum (a b : Point num) : Row := minus (rowNum a) (rowNum b).

Definition hasRowNum (r : Row) s : bool :=
  existsb (fun p => strictEq (rowNum p) r) (points s).

Definition addPoint p s : Store num :=
  if existsb (fun q => strictEq (rowNum q) (rowNum p)) (points s) then s
  else notify (saveToLocal
                 (mkStore (sortWith (fun a b => sortOrder (byRowNum a b))
                                    (points s ++ [p]))
                          (notified s) (savedPoints s) (quotaExceeded s)
                          (circleSize s))).

(** [addPointAtPosition], as far as the store and the toast go: the marker
    that [createPointShape] adds and the row field that [updateNextRowInput]
    rewrites are left out.  [nextRow] is what [getNextRowInput] returns and
    [now] is [Date.now()]. *)
Definition addPointAtPosition (now : Z) (x y : num) (nextRow : Row) s
    : Store num * Toast :=
  if less nextRow (Int 1) || less (Int 215) nextRow then
    (s, mkToast "Row must be between 1 and 215" true)
  else if hasRowNum nextRow s then
    (s, mkToast ("Circle " +:+ toString nextRow +:+ " already exists!") true)
  else
    let point := mkPoint ("c_" +:+ toString nextRow +:+ "_" +:+ showZ now)
                         (nround x) (nround y) (circleSize s) nextRow in
    (addPoint point s, mkToast ("Circle " +:+ toString nextRow +:+ " added") false).

(** The rows in use, in list order. *)
Definition rows s : list Row := map rowNum (points s).

(** A list of rows in strictly ascending order, by [<]. *)
Definition ascending (l : list Row) : Prop :=
  StronglySorted (fun a b => less a b = true) l.
End Ops.

End Parsed.

(** A point and a store of the development above, whose rows are integers,
    seen with rows as [parseInt] returns them. *)
Definition parsedPoint {num : Type} (p : PointData num) : Parsed.Point num :=
  Parsed.mkPoint (Point.id p) (Point.x p) (Point.y p) (Point.size p)
                 (Parsed.Int (Point.rowNum p)).

Definition parsedStore {num : Type} (s : Store num) : Parsed.Store num :=
  Parsed.mkStore (map parsedPoint (points s)) (notified s)
                 (match savedPoints s with
                  | Some (PointArray l) => Some (map parsedPoint l)
                  | _ => None
                  end)
                 (quotaExceeded s) (circleSize (state s)).

(** * Vocabulary of the properties *)

(** The operations of the store that change the point list. *)
Inductive StoreOp (num : Type) :=
  | OpAddPoint (p : PointData num)
  | OpRemovePoint (id : string)
  | OpClearAllPoints
  | OpImportPoints (env : Entropy) (data : list (Item.t num))
  | OpLoadFromLocal.
Arguments OpAddPoint {num}.
Arguments OpRemovePoint {num}.
Arguments OpClearAllPoints {num}.
Arguments OpImportPoints {num}.
Arguments OpLoadFromLocal {num}.

Section Vocabulary.
Context {num : Type} `{!Number num}.
Implicit Types (s : Store num) (p : PointData num).

(** The row numbers in use, in list order. *)
Definition rows s : list Z := map Point.rowNum (points s).

Definition inRange p : Prop := 1 <= Point.rowNum p <= 215.

Definition runOp (op : StoreOp num) s : Store num :=
  match op with
  | OpAddPoint p => addPoint p s
  | OpRemovePoint id => snd (removePoint id s)
  | OpClearAllPoints => clearAllPoints s
  | OpImportPoints env data => importPoints env data s
  | OpLoadFromLocal => snd (loadFromLocal s)
  end.

Definition runOps (ops : list (StoreOp num)) s : Store num :=
  fold_left (fun s' op => runOp op s') ops s.

(** The row of an import item when [importPoints] keeps it. *)
Definition validRow (item : Item.t num) : option Z :=
  match Item.rowNum item with
  | Some r => if (1 <=? r) && (r <=? 215) then Some r else None
  | None => None
  end.

(** The size [importPoints] gives the point made from an item. *)
Definition importedSize (item : Item.t num) : num :=
  match Item.size item with
  | Some sz => if truthy sz then sz else lit 24
  | None => lit 24
  end.

(** The points that the [forEach] of [importPoints] pushes for [data], in
    push order, when [n] identifiers have been generated before. *)
Fixpoint importedFrom (env : Entropy) (n : nat) (data : list (Item.t num))
    : list (PointData num) :=
  match data with
  | [] => []
  | item :: rest =>
      match validRow item with
      | Some r =>
          Point.mk (freshId r (env n)) (Item.x item) (Item.y item)
                   (importedSize item) r
          :: importedFrom env (S n) rest
      | None => importedFrom env n rest
      end
  end.

(** The point [importPoints] makes from a kept item, given the clock and
    random readings [e] its identifier is built from. *)
Definition importedPoint (e : Z * string) (item : Item.t num) : PointData num :=
  let r := default 0 (Item.rowNum item) in
  Point.mk (freshId r e) (Item.x item) (Item.y item) (importedSize item) r.

Definition kept (data : list (Item.t num)) : list (Item.t num) :=
  filter (fun item => is_Some (validRow item)) data.

(** The saved list, when storage holds one, has rows of 1..215 only. *)
Definition storedInRange (saved : option (Stored num)) : Prop :=
  match saved with
  | Some (PointArray l) => Forall inRange l
  | _ => True
  end.

(** The argument of an [addPoint] call has a row of 1..215, as it has when
    the call comes from the canvas's placement handler. *)
Definition opInRange (op : StoreOp num) : Prop :=
  match op with
  | OpAddPoint p => inRange p
  | _ => True
  end.

Definition rowsInRange s : Prop :=
  Forall inRange (points s) /\ storedInRange (savedPoints s).

(** The fields a round trip is expected to keep; the id is not one of them. *)
Definition pointFields p : Z * num * num * num :=
  (Point.rowNum p, Point.x p, Point.y p, Point.size p).

(** A point that [importPoints] takes back unchanged: its row lies in 1..215
    and its size is truthy, so that [item.size || 24] yields the size. *)
Definition reimportable p : Prop :=
  inRange p /\ truthy (Point.size p) = true.
End Vocabulary.

Section ExactVocabulary.
Local Open Scope Q_scope.

Definition clamp (lo hi v : Q) : Q := Qmax lo (Qmin hi v).

(** The image-space point that the screen point [(px, py)] shows under the
    viewport [st]: [(screen - offset) / scale] on each axis. *)
Definition imagePointX (px : Q) (st : AppState Q) : Q := (px - offsetX st) / scale st.
Definition imagePointY (py : Q) (st : AppState Q) : Q := (py - offsetY st) / scale st.

(** What a zoom about the pivot [(px, py)] by [factor] must achieve going
    from viewport [old] to viewport [new]. *)
Definition zoomedAbout (px py factor : Q) (old new : AppState Q) : Prop :=
  scale new == clamp 0.1 6 (scale old * factor)
  /\ imagePointX px new == imagePointX px old
  /\ imagePointY py new == imagePointY py old
  /\ Qabs (imagePointX px new - imagePointX px old) <= 1 # 1000000
  /\ Qabs (imagePointY py new - imagePointY py old) <= 1 # 1000000.

(** The metrics of a marker for a point of nominal size [size] under a
    viewport of scale [sc], as the code computes them. *)
Definition markerMetrics (m : Marker Q) (size sc : Q) : Prop :=
  radius m == size / sc / 2
  /\ strokeWidth m == Qmax 1 (2 / sc)
  /\ fontSize m == Qmax 8 (11 / sc)
  /\ radius m * sc == size / 2
  /\ (sc <= 2 -> strokeWidth m == 2 / sc)
  /\ (2 <= sc -> strokeWidth m == 1)
  /\ (sc <= 1.375 -> fontSize m == 11 / sc)
  /\ (1.375 <= sc -> fontSize m == 8).
End ExactVocabulary.

(** Inputs of the concrete runs. *)
Section Inputs.
Local Open Scope Q_scope.

(** Clock and random readings for the runs below. *)
Definition env0 : Entropy := fun n => (1700000000000 + Z.of_nat n, "k3x9q0zab")%Z.

Definition emptyStore : Store Q := newStore None false.
Definition canvas0 : CanvasManager Q := newCanvasManager 800 600.
Definition pointA : PointData Q := Point.mk "c_1_1700000000000" 100 50 24 1.
Definition pointB : PointData Q := Point.mk "c_5_1700000000001" 300 80 24 5.
Definition pointA' : PointData Q := Point.mk "c_1_1700000000002" 7 9 30 1.
Definition pointRow0 : PointData Q := Point.mk "c_0_1700000000003" 10 20 24 0.
Definition pointRow300 : PointData Q := Point.mk "c_300_1700000000004" 10 20 24 300.
Definition pointSize0 : PointData Q := Point.mk "c_1_1700000000005" 10 20 0 1.

Definition app200 : App Q := mkApp (newCanvasManager 200 200) emptyStore.

Definition appWithImage : App Q :=
  mkApp (mkCanvasManager 800 600 (Some (1000, 1000))
                         (mkLayer 0 0 1) (mkLayer 0 0 1) ∅)
        emptyStore.
End Inputs.

(** ** Vocabulary for the rest of the program *)

Section MoreVocabulary.
Context {num : Type} `{!Number num}.
Implicit Types (s : Store num) (p : PointData num) (app : App num).

(** The list a new session finds: what [loadFromLocal] returns on a store
    constructed over the storage that [s] leaves behind. *)
Definition restoredFrom s : list (PointData num) :=
  fst (loadFromLocal (newStore (savedPoints s) false)).

(** The same store in a browser whose [setItem] throws, or does not. *)
Definition withQuota (full : bool) s : Store num :=
  mkStore (state s) (points s) (excelData s) (imageBase64 s) (notified s)
          (savedPoints s) full.

Definition isLoad (op : StoreOp num) : Prop :=
  match op with OpLoadFromLocal => True | _ => False end.

(** Both layers carry the store's viewport. *)
Definition layersFollow app : Prop :=
  let st := state (store app) in
  let layer := mkLayer (offsetX st) (offsetY st) (scale st) in
  imageLayer (canvasManager app) = layer /\ pointsLayer (canvasManager app) = layer.

(** The marker [m] is the one the canvas shows for [p] at scale [sc]. *)
Definition markerOf (m : Marker num) p (sc : num) : Prop :=
  markerX m = Point.x p /\ markerY m = Point.y p
  /\ label m = showZ (Point.rowNum p)
  /\ radius m = circleRadius (Point.size p) sc
  /\ strokeWidth m = circleStrokeWidth sc
  /\ fontSize m = textFontSize sc.

(** The markers are exactly those of the points: every point has its marker
    under its id, and every marker belongs to a point. *)
Definition sceneMatches app : Prop :=
  let shapes := pointShapes (canvasManager app) in
  let s := store app in
  (forall p, In p (points s) ->
     exists m, shapes !! Point.id p = Some m /\ markerOf m p (scale (state s)))
  /\ (forall id m, shapes !! id = Some m ->
        exists p, In p (points s) /\ Point.id p = id).
(** The parts of a store that do not depend on whether writes succeed. *)
Definition memory s : AppState num * list (PointData num) * nat :=
  (state s, points s, notified s).

(** The settings of the view: everything in [AppState] but the selection. *)
Definition viewSettings (st : AppState num) : Mode * num * num * num * num * bool * num * num :=
  (mode st, scale st, offsetX st, offsetY st, circleSize st, isDragging st,
   dragStartX st, dragStartY st).

(** The marker [createPointShape] builds for [p] under the store [s]. *)
Definition shapeOf p s : Marker num :=
  mkMarker (Point.x p) (Point.y p)
           (circleRadius (Point.size p) (scale (state s)))
           (circleStrokeWidth (scale (state s)))
           (textFontSize (scale (state s)))
           (showZ (Point.rowNum p)).
End MoreVocabulary.

Section PageVocabulary.
Local Open Scope Q_scope.

(** Two viewports that agree up to equality of rationals. *)
Definition sameView (a b : AppState Q) : Prop :=
  scale a == scale b /\ offsetX a == offsetX b /\ offsetY a == offsetY b.

Definition isImport (ev : Event) : Prop :=
  match ev with ImportFile _ _ _ => True | _ => False end.

(** Every point was placed by a click: its id is built from its own row. *)
Definition placedIds (s : Store Q) : Prop :=
  Forall (fun p => exists now, Point.id p = placedId (Point.rowNum p) now) (points s).

(** What holds of the application however the page is driven. *)
Definition appSound (app : App Q) : Prop :=
  Forall inRange (points (store app))
  /\ 0.1 <= scale (state (store app)) <= 6
  /\ layersFollow app.

(** What holds of the application as long as nothing is imported. *)
Definition appTidy (app : App Q) : Prop :=
  StronglySorted Z.lt (rows (store app))
  /\ Forall inRange (points (store app))
  /\ placedIds (store app)
  /\ sceneMatches app.

(** The background image, if one is loaded, has a positive width and
    height: [fitToContent] divides by both. *)
Definition imageHasSize (app : App Q) : Prop :=
  match backgroundImage (canvasManager app) with
  | Some (width, height) => 0 < width /\ 0 < height
  | None => True
  end.

Definition pageSound (pg : Page) : Prop :=
  appSound (pageApp pg) /\ imageHasSize (pageApp pg).

Definition pageTidy (pg : Page) : Prop := appTidy (pageApp pg).

(** The first [n] clicks of a session on the empty background, at arbitrary
    positions and times. *)
Definition backgroundClicks (clicks : list (Z * (Q * Q))) : list Event :=
  map (fun c => Click (fst c) OnBackground (Some (snd c))) clicks.
(** Decimal numerals contain no underscore, which is what separates the
    parts of an id. *)
Definition underscore : Ascii.ascii := Eval cbv in Ascii.ascii_of_nat 95.

Fixpoint noUnderscore (str : string) : Prop :=
  match str with
  | EmptyString => True
  | String a rest => a <> underscore /\ noUnderscore rest
  end.
End PageVocabulary.

(** Inputs of the further runs. *)
Section MoreInputs.
Local Open Scope Q_scope.

Definition someOps : list (StoreOp Q) :=
  [OpAddPoint pointB; OpAddPoint pointA; OpRemovePoint (Point.id pointB);
   OpImportPoints env0 [Item.mk None 1 2 None (Some 300%Z) None;
                        Item.mk None 3 4 (Some 12) (Some 7%Z) None];
   OpAddPoint pointA; OpClearAllPoints; OpAddPoint pointA'].

Definition someEvents : list Event :=
  [Click 10 OnStage (Some (100.4, 50.5)); Click 11 OnBackground (Some (10, 20));
   ZoomInButton; Click 12 OnStage (Some (300, 300)); KeyDown false "P";
   Click 13 OnStage (Some (1, 1)); MouseDown 0 (Some (5, 5));
   MouseMove (Some (25, 45)); MouseUp; Click 14 (OnMarker "c_2_11") None;
   KeyDown false "Delete"; Wheel (-3) (Some (40, 40)); KeyDown false "d";
   TypeNextRow 300; Click 15 OnStage (Some (7, 7)); TypeNextRow 2;
   Click 16 OnStage (Some (7, 7)); SizeSlider 30; ContextMenu "c_1_10";
   FitButton; ClearAll false].


Definition restoringApp : App Q :=
  mkApp canvas0 (newStore (Some (PointArray [pointA; pointB])) false).

(** Points as [addPointAtPosition] builds them with the row field reading
    [5], [.5], [3] and [abc]. *)
Definition onRow5 : Parsed.Point Q :=
  Parsed.mkPoint "c_5_1700000000001" 300 80 24 (Parsed.Int 5).
Definition onRowNaN : Parsed.Point Q :=
  Parsed.mkPoint "c_NaN_1700000000002" 10 20 24 Parsed.NaN.
Definition onRow3 : Parsed.Point Q :=
  Parsed.mkPoint "c_3_1700000000003" 40 50 24 (Parsed.Int 3).
Definition onRowNaN' : Parsed.Point Q :=
  Parsed.mkPoint "c_NaN_1700000000004" 70 90 24 Parsed.NaN.

(** The store as constructed, over empty storage. *)
Definition parsedEmpty : Parsed.Store Q := Parsed.mkStore [] 0 None false 24.

(** The clicks that make these points: the time, the image-space position
    and what [getNextRowInput] returns. *)
Definition fourClicks : list (Z * Q * Q * Parsed.Row) :=
  [(1700000000001%Z, 299.6, 80.2, Parsed.Int 5);
   (1700000000002%Z, 10.25, 19.5, Parsed.NaN);
   (1700000000003%Z, 40, 50.4, Parsed.Int 3);
   (1700000000004%Z, 70.4, 89.5, Parsed.NaN)].
End MoreInputs.

(** * Properties *)

Example binary64_literals :
  lit (num := float) 0.1 = 0.1%float /\ lit (num := float) 0.92 = 0.92%float
  /\ lit (num := float) 6 = 6%float /\ lit (num := float) 1.12 = 1.12%float.
Proof. repeat split; reflexivity. Qed.

(** ** Sorting by an integer key *)

Section SortFacts.
Context {A : Type} (key : A -> Z).
Let cmp (a b : A) : Z := key a - key b.

Lemma insertWith_perm (f : A -> A -> Z) (a : A) (l : list A) :
  insertWith f a l ≡ₚ a :: l.
Proof.
  induction l as [|b l IH]; simpl; [done|].
  destruct (0 <? f a b); [|done].
  rewrite IH. apply Permutation_swap.
Qed.

Lemma sortWith_perm (f : A -> A -> Z) (l : list A) : sortWith f l ≡ₚ l.
Proof.
  induction l as [|a l IH]; simpl; [done|].
  by rewrite insertWith_perm, IH.
Qed.

Lemma sortWith_length (f : A -> A -> Z) (l : list A) :
  length (sortWith f l) = length l.
Proof. apply Permutation_length, sortWith_perm. Qed.

Lemma insertWith_sorted (a : A) (l : list A) :
  StronglySorted Z.le (map key l) ->
  StronglySorted Z.le (map key (insertWith cmp a l)).
Proof.
  induction l as [|b l IH]; simpl; intros Hs.
  - repeat constructor.
  - apply StronglySorted_inv in Hs as [Hl Hb].
    unfold cmp at 1. destruct (Z.ltb_spec 0 (key a - key b)) as [Hlt|Hge]; simpl.
    + constructor; [by apply IH|].
      rewrite (Permutation_map key (insertWith_perm cmp a l)). simpl.
      constructor; [lia | done].
    + constructor; [by constructor|].
      constructor; [lia|].
      eapply Forall_impl; [exact Hb|]. simpl. intros; lia.
Qed.

Lemma sortWith_sorted (l : list A) :
  StronglySorted Z.le (map key (sortWith cmp l)).
Proof.
  induction l as [|a l IH]; simpl; [constructor|].
  by apply insertWith_sorted.
Qed.

(** Stability: elements with the same key keep their relative order. *)
Lemma insertWith_stable (k : Z) (a : A) (l : list A) :
  filter (fun b => key b = k) (insertWith cmp a l)
  = filter (fun b => key b = k) (a :: l).
Proof.
  induction l as [|b l IH]; simpl; [done|].
  unfold cmp at 1. destruct (Z.ltb_spec 0 (key a - key b)) as [Hlt|Hge]; [|done].
  rewrite filter_cons, IH, !filter_cons.
  repeat case_decide; try done; lia.
Qed.

Lemma sortWith_stable (k : Z) (l : list A) :
  filter (fun b => key b = k) (sortWith cmp l) = filter (fun b => key b = k) l.
Proof.
  induction l as [|a l IH]; simpl; [done|].
  rewrite insertWith_stable, !filter_cons, IH. done.
Qed.

(** A list that is already in ascending order is left as it is. *)
Lemma sortWith_id (l : list A) :
  StronglySorted Z.le (map key l) -> sortWith cmp l = l.
Proof.
  induction l as [|a l IH]; simpl; [done|]. intros Hs.
  apply StronglySorted_inv in Hs as [Hl Ha]. rewrite (IH Hl).
  destruct l as [|b l]; simpl; [done|].
  unfold cmp. inversion Ha; subst.
  destruct (Z.ltb_spec 0 (key a - key b)); [lia | done].
Qed.
End SortFacts.

Lemma StronglySorted_le_NoDup_lt (l : list Z) :
  StronglySorted Z.le l -> NoDup l -> StronglySorted Z.lt l.
Proof.
  induction l as [|a l IH]; intros Hs Hn; [constructor|].
  apply StronglySorted_inv in Hs as [Hl Ha].
  apply NoDup_cons in Hn as [Hnot Hn].
  constructor; [by apply IH|].
  rewrite Forall_forall in Ha |- *. intros b Hb.
  assert (a <> b) by (intros ->; by apply Hnot).
  specialize (Ha b Hb). lia.
Qed.

Lemma StronglySorted_lt_NoDup (l : list Z) :
  StronglySorted Z.lt l -> NoDup l.
Proof.
  induction 1 as [|a l Hl IH Ha]; [constructor|].
  apply NoDup_cons. split; [|done].
  intros Hin. rewrite Forall_forall in Ha. specialize (Ha a Hin). lia.
Qed.

(** ** The point store *)

Section StoreFacts.
Context {num : Type} `{!Number num}.
Implicit Types (s : Store num) (p : PointData num).

Lemma existsb_rowNum (r : Z) (l : list (PointData num)) :
  existsb (fun q => Point.rowNum q =? r) l = true <-> In r (map Point.rowNum l).
Proof.
  rewrite existsb_exists, in_map_iff.
  split; intros (q & H1 & H2); exists q.
  - apply Z.eqb_eq in H2. done.
  - split; [done|]. by apply Z.eqb_eq.
Qed.

Lemma addPoint_present p s :
  In (Point.rowNum p) (rows s) -> addPoint p s = s.
Proof.
  intros Hin. unfold addPoint.
  apply existsb_rowNum in Hin. by rewrite Hin.
Qed.

Lemma addPoint_absent p s :
  ~ In (Point.rowNum p) (rows s) ->
  addPoint p s
  = notify (saveToLocal (set_points (sortWith byRowNum (points s ++ [p])) s)).
Proof.
  intros Hin. unfold addPoint.
  destruct (existsb _ _) eqn:E; [|done].
  apply existsb_rowNum in E. done.
Qed.

Lemma points_notify s : points (notify s) = points s.
Proof. done. Qed.

Lemma points_saveToLocal s : points (saveToLocal s) = points s.
Proof. unfold saveToLocal. by destruct (quotaExceeded s). Qed.

Lemma state_saveToLocal s : state (saveToLocal s) = state s.
Proof. unfold saveToLocal. by destruct (quotaExceeded s). Qed.

Lemma notified_saveToLocal s : notified (saveToLocal s) = notified s.
Proof. unfold saveToLocal. by destruct (quotaExceeded s). Qed.

Lemma points_addPoint_absent p s :
  ~ In (Point.rowNum p) (rows s) ->
  points (addPoint p s) = sortWith byRowNum (points s ++ [p]).
Proof.
  intros Hin. rewrite (addPoint_absent _ _ Hin).
  by rewrite points_notify, points_saveToLocal.
Qed.

Lemma addPoint_keeps_ascending p s :
  StronglySorted Z.lt (rows s) -> StronglySorted Z.lt (rows (addPoint p s)).
Proof.
  intros Hs. destruct (in_dec Z.eq_dec (Point.rowNum p) (rows s)) as [Hin|Hin].
  - by rewrite addPoint_present.
  - unfold rows. rewrite (points_addPoint_absent _ _ Hin).
    apply StronglySorted_le_NoDup_lt.
    + apply (sortWith_sorted Point.rowNum).
    + rewrite (Permutation_map Point.rowNum (sortWith_perm byRowNum _)).
      rewrite map_app. simpl. apply NoDup_app. split_and!.
      * by apply StronglySorted_lt_NoDup.
      * intros r Hr Hr'. apply list_elem_of_In in Hr.
        apply list_elem_of_singleton in Hr'. by subst.
      * apply NoDup_singleton.
Qed.

(** With integer rows: starting from an empty point list, any sequence of
    [addPoint] calls leaves the list in strictly ascending [rowNum] order,
    hence without two points on one row.  A call whose [rowNum] is already
    present returns the store as it was (nothing saved, nobody notified); any
    other call appends the point, sorts the list by [rowNum], saves it and
    notifies once. *)
Theorem addPoint_rows_unique (s0 : Store num) (ps : list (PointData num)) :
  points s0 = [] ->
  let s := fold_left (fun s p => addPoint p s) ps s0 in
  (StronglySorted Z.lt (rows s) /\ NoDup (rows s))
  /\ (forall p, In (Point.rowNum p) (rows s) -> addPoint p s = s)
  /\ (forall p, ~ In (Point.rowNum p) (rows s) ->
        points (addPoint p s) = sortWith byRowNum (points s ++ [p])
        /\ points (addPoint p s) ≡ₚ p :: points s
        /\ StronglySorted Z.lt (rows (addPoint p s))
        /\ notified (addPoint p s) = S (notified s)
        /\ (quotaExceeded s = false ->
            savedPoints (addPoint p s) = Some (PointArray (points (addPoint p s))))).
Proof.
  intros Hnil s.
  assert (Hs : StronglySorted Z.lt (rows s)).
  { subst s. assert (H0 : StronglySorted Z.lt (rows s0)).
    { unfold rows. rewrite Hnil. constructor. }
    clear Hnil. revert s0 H0.
    induction ps as [|p ps IH]; intros s0 H0; simpl; [done|].
    apply IH. by apply addPoint_keeps_ascending. }
  split_and!.
  - done.
  - by apply StronglySorted_lt_NoDup.
  - intros p. apply addPoint_present.
  - intros p Hin. split_and!.
    + by apply points_addPoint_absent.
    + rewrite (points_addPoint_absent _ _ Hin), sortWith_perm.
      symmetry. apply Permutation_cons_append.
    + by apply addPoint_keeps_ascending.
    + rewrite (addPoint_absent _ _ Hin). simpl. by rewrite notified_saveToLocal.
    + intros Hq. rewrite (addPoint_absent _ _ Hin).
      unfold saveToLocal. simpl. by rewrite Hq.
Qed.

(** C8: [removePoint id] returns [undefined] and leaves the store untouched
    when no point has that id.  Otherwise it removes the first point with
    that id and returns it, and the selection becomes null when the removed
    id was the selected one and stays as it was otherwise. *)
Theorem removePoint_spec (id : string) (s : Store num) :
  (Forall (fun p => Point.id p <> id) (points s) -> removePoint id s = (None, s))
  /\ ((exists p, In p (points s) /\ Point.id p = id) ->
      exists removed l1 l2,
        points s = l1 ++ removed :: l2
        /\ Point.id removed = id
        /\ Forall (fun p => Point.id p <> id) l1
        /\ fst (removePoint id s) = Some removed
        /\ points (snd (removePoint id s)) = l1 ++ l2
        /\ (selectedPointId (state s) = Some id ->
            selectedPointId (state (snd (removePoint id s))) = None)
        /\ (selectedPointId (state s) <> Some id ->
            selectedPointId (state (snd (removePoint id s)))
            = selectedPointId (state s))).
Proof.
  unfold removePoint. split.
  - intros Hall.
    destruct (list_find _ _) as [[i q]|] eqn:E; [|done].
    apply list_find_Some in E as (Hq & Hid & _).
    rewrite Forall_forall in Hall.
    exfalso. eapply Hall; [|exact Hid]. by eapply list_elem_of_lookup_2.
  - intros (p & Hin & Hid).
    destruct (list_find _ _) as [[i q]|] eqn:E.
    + apply list_find_Some in E as (Hq & Hqid & Hbefore).
      exists q, (take i (points s)), (drop (S i) (points s)).
      split_and!.
      * symmetry. by apply take_drop_middle.
      * done.
      * apply Forall_forall. intros r Hr.
        apply list_elem_of_lookup in Hr as [j Hj].
        pose proof (lookup_lt_Some _ _ _ Hj) as Hlen.
        rewrite length_take in Hlen.
        rewrite lookup_take_lt in Hj by lia.
        apply (Hbefore j); [done | lia].
      * done.
      * simpl. case_decide; simpl; rewrite points_saveToLocal; simpl;
          apply delete_take_drop.
      * intros Hsel. simpl. rewrite decide_True by done.
        simpl. by rewrite state_saveToLocal.
      * intros Hsel. simpl. rewrite decide_False by done.
        simpl. by rewrite state_saveToLocal.
    + apply list_find_None in E. rewrite Forall_forall in E.
      exfalso. apply (E p); [by apply list_elem_of_In | done].
Qed.

Lemma scanRows_spec (E : gset Z) (n : nat) (i : Z) :
  ((scanRows E i n ∉ E)
   /\ i <= scanRows E i n < i + Z.of_nat n
   /\ forall j, i <= j < scanRows E i n -> j ∈ E)
  \/ (scanRows E i n = 215 /\ forall j, i <= j < i + Z.of_nat n -> j ∈ E).
Proof.
  revert i. induction n as [|n IH]; intros i.
  - right. split; [done|]. intros j Hj. lia.
  - cbn [scanRows]. case_bool_decide as Hi.
    + destruct (IH (i + 1)) as [(H1 & H2 & H3)|[H1 H2]].
      * left. split; [done|]. split; [lia|].
        intros j Hj. destruct (decide (j = i)) as [->|]; [done|].
        apply H3. lia.
      * right. split; [done|].
        intros j Hj. destruct (decide (j = i)) as [->|]; [done|].
        apply H2. lia.
    + left. split; [done|]. split; [lia|]. intros j Hj. lia.
Qed.

Lemma elem_of_existingRows (r : Z) s :
  r ∈ (list_to_set (map Point.rowNum (points s)) : gset Z) <-> In r (rows s).
Proof. rewrite elem_of_list_to_set. apply list_elem_of_In. Qed.

(** C9: [getNextAvailableRow] returns the smallest row of 1..215 that no
    point uses, and 215 when every row is used.  With a point on row 1 it
    returns 2; after a point on row 5 is added it still returns 2; after the
    point on row 1 is removed it returns 1; with all 215 rows used it
    returns 215. *)
Theorem getNextAvailableRow_smallest_free (s : Store num) :
  let r := getNextAvailableRow s in
  (1 <= r <= 215
   /\ ((exists i, 1 <= i <= 215 /\ ~ In i (rows s)) ->
       ~ In r (rows s) /\ forall j, 1 <= j < r -> In j (rows s))
   /\ ((forall i, 1 <= i <= 215 -> In i (rows s)) -> r = 215))
  /\ (let s1 := addPoint (Point.mk "a" (lit 100) (lit 50) (lit 24) 1)
                         (newStore None false) in
      let s2 := addPoint (Point.mk "b" (lit 300) (lit 80) (lit 24) 5) s1 in
      let s3 := snd (removePoint "a" s2) in
      let full := fold_left (fun s' i =>
                               addPoint (Point.mk (showZ i) (lit 0) (lit 0) (lit 24) i) s')
                            (map Z.of_nat (seq 1 215)) (newStore None false) in
      getNextAvailableRow s1 = 2 /\ getNextAvailableRow s2 = 2
      /\ getNextAvailableRow s3 = 1
      /\ rows full = map Z.of_nat (seq 1 215) /\ getNextAvailableRow full = 215).
Proof.
  split; [|cbn zeta; split_and!; vm_compute; reflexivity].
  unfold getNextAvailableRow.
  set (E := list_to_set _ : gset Z).
  destruct (scanRows_spec E 215 1) as [(H1 & H2 & H3)|[H1 H2]]; cbn zeta.
  - split; [lia|]. split.
    + intros _. split.
      * intros Hin. by apply H1, elem_of_existingRows.
      * intros j Hj. by apply elem_of_existingRows, H3.
    + intros Hall. exfalso. apply H1, elem_of_existingRows, Hall. lia.
  - split; [lia|]. split.
    + intros (i & Hi & Hfree). exfalso.
      apply Hfree, elem_of_existingRows, H2. lia.
    + done.
Qed.
End StoreFacts.

(** ** Rows that are not integers *)

Section NaNRows.
Context {num : Type} `{!Number num}.

Lemma insertWith_map {A B : Type} (f : A -> B) (cmp : A -> A -> Z)
    (cmp' : B -> B -> Z) (a : A) (l : list A) :
  (forall a b, cmp' (f a) (f b) = cmp a b) ->
  insertWith cmp' (f a) (map f l) = map f (insertWith cmp a l).
Proof.
  intros Hcmp. induction l as [|b l IH]; simpl; [done|].
  rewrite Hcmp. destruct (0 <? cmp a b); simpl; [by rewrite IH | done].
Qed.

Lemma sortWith_map {A B : Type} (f : A -> B) (cmp : A -> A -> Z)
    (cmp' : B -> B -> Z) (l : list A) :
  (forall a b, cmp' (f a) (f b) = cmp a b) ->
  sortWith cmp' (map f l) = map f (sortWith cmp l).
Proof.
  intros Hcmp. induction l as [|a l IH]; simpl; [done|].
  rewrite IH. by apply insertWith_map.
Qed.

(** On integer rows the embedding over [Parsed.Row] is the [addPoint] of
    the development above. *)
Lemma addPoint_parsed (p : PointData num) (s : Store num) :
  Parsed.addPoint (parsedPoint p) (parsedStore s) = parsedStore (addPoint p s).
Proof.
  unfold Parsed.addPoint, addPoint. cbn [parsedStore Parsed.points].
  assert (E : existsb (fun q => Parsed.strictEq (Parsed.rowNum q)
                                  (Parsed.rowNum (parsedPoint p)))
                (map parsedPoint (points s))
              = existsb (fun q => Point.rowNum q =? Point.rowNum p) (points s)).
  { induction (points s) as [|q l IH]; [done|].
    cbn [map existsb]. by rewrite IH. }
  rewrite E. destruct (existsb _ (points s)); [done|].
  change [parsedPoint p] with (map parsedPoint [p]). rewrite <- map_app.
  rewrite (sortWith_map parsedPoint byRowNum) by done.
  unfold Parsed.notify, Parsed.saveToLocal, notify, saveToLocal, set_points,
    parsedStore.
  cbn. destruct (quotaExceeded s) eqn:Hq; cbn; rewrite ?Hq; reflexivity.
Qed.

(** No row is strictly equal to NaN: [hasRowNum] never finds it. *)
Lemma hasRowNum_NaN (s : Parsed.Store num) :
  Parsed.hasRowNum Parsed.NaN s = false.
Proof.
  unfold Parsed.hasRowNum. induction (Parsed.points s) as [|q l IH]; simpl; [done|].
  rewrite IH. by destruct (Parsed.rowNum q).
Qed.

(** [addPoint] never rejects a point whose row is NaN. *)
Lemma addPoint_NaN (p : Parsed.Point num) (s : Parsed.Store num) :
  Parsed.rowNum p = Parsed.NaN ->
  Parsed.points (Parsed.addPoint p s) ≡ₚ p :: Parsed.points s
  /\ Parsed.notified (Parsed.addPoint p s) = S (Parsed.notified s)
  /\ (Parsed.quotaExceeded s = false ->
      Parsed.savedPoints (Parsed.addPoint p s)
      = Some (Parsed.points (Parsed.addPoint p s))).
Proof.
  intros Hrow. unfold Parsed.addPoint. rewrite Hrow.
  fold (Parsed.hasRowNum Parsed.NaN s). rewrite hasRowNum_NaN.
  unfold Parsed.notify, Parsed.saveToLocal. simpl.
  destruct (Parsed.quotaExceeded s); simpl; split_and!; try done;
    rewrite sortWith_perm; symmetry; apply Permutation_cons_append.
Qed.

(** A list of rows with NaN in it is in ascending order only if NaN is all
    there is. *)
Lemma ascending_NaN (l : list Parsed.Row) :
  Parsed.ascending l -> In Parsed.NaN l -> l = [Parsed.NaN].
Proof.
  unfold Parsed.ascending. induction 1 as [|a l Hs IH Hall]; simpl; [done|].
  intros [->|Hin].
  - destruct l as [|b l]; [done|]. apply Forall_inv in Hall. done.
  - exfalso. rewrite Forall_forall in Hall.
    apply list_elem_of_In, Hall in Hin. by destruct a.
Qed.

Lemma hasRowNum_parsed (r : Z) (s : Store num) :
  Parsed.hasRowNum (Parsed.Int r) (parsedStore s) = hasRowNum r s.
Proof.
  unfold Parsed.hasRowNum, hasRowNum. cbn [parsedStore Parsed.points].
  induction (points s) as [|q l IH]; [done|]. cbn [map existsb]. by rewrite IH.
Qed.

(** With the row field reading NaN, [addPointAtPosition] turns no click
    down: neither guard holds, and the point goes to [addPoint]. *)
Lemma addPointAtPosition_NaN `{!Rounding num} (now : Z) (x y : num)
    (s : Parsed.Store num) :
  Parsed.addPointAtPosition now x y Parsed.NaN s
  = (Parsed.addPoint (Parsed.mkPoint ("c_NaN_" +:+ showZ now) (nround x) (nround y)
                                     (Parsed.circleSize s) Parsed.NaN) s,
     mkToast "Circle NaN added" false).
Proof.
  unfold Parsed.addPointAtPosition. cbn [Parsed.less orb].
  by rewrite hasRowNum_NaN.
Qed.
End NaNRows.

Section NaNClicks.
Local Open Scope Q_scope.

(** With the row field reading an integer, the embedding over [Parsed.Row]
    is the [addPointAtPosition] of the page, as far as the store and the
    toast go. *)
Lemma addPointAtPosition_parsed (now : Z) (x y : Q) (pg : Page) :
  let pg' := addPointAtPosition now x y pg in
  exists t,
    toast pg' = Some t
    /\ Parsed.addPointAtPosition now x y (Parsed.Int (nextRowInput pg))
                                 (parsedStore (store (pageApp pg)))
       = (parsedStore (store (pageApp pg')), t).
Proof.
  destruct pg as [[c s] r t0]. cbn zeta.
  unfold addPointAtPosition, Parsed.addPointAtPosition.
  cbn [pageApp nextRowInput store canvasManager Parsed.less].
  destruct ((r <? 1)%Z || (215 <? r)%Z); [by eexists|].
  rewrite hasRowNum_parsed. destruct (hasRowNum r s); [by eexists|].
  eexists. split; [reflexivity|]. cbn [pageApp store toast].
  by rewrite <- addPoint_parsed.
Qed.
End NaNClicks.

(** ** Identifiers *)

Section PlacedIds.

Lemma noUnderscore_uint (d : Decimal.uint) :
  noUnderscore (NilEmpty.string_of_uint d).
Proof. induction d; simpl; (done || (split; [discriminate | done])). Qed.

Lemma noUnderscore_showZ (z : Z) : noUnderscore (showZ z).
Proof.
  unfold showZ. destruct (Z.to_int z) as [d|d]; simpl.
  - destruct d; simpl; try (split; [discriminate|]); try done;
      apply noUnderscore_uint.
  - split; [discriminate|].
    destruct d; simpl; try (split; [discriminate|]); try done;
      apply noUnderscore_uint.
Qed.

Lemma append_underscore_inj (a a' b b' : string) :
  noUnderscore a -> noUnderscore a' ->
  a +:+ String underscore b = a' +:+ String underscore b' -> a = a'.
Proof.
  revert a'. induction a as [|c a IH]; intros [|c' a'] Ha Ha' Heq; simpl in *.
  - done.
  - injection Heq as Hc _. destruct Ha' as [Hne _]. by subst.
  - injection Heq as Hc _. destruct Ha as [Hne _]. by subst.
  - injection Heq as -> Heq. f_equal.
    destruct Ha as [_ Ha]. destruct Ha' as [_ Ha']. by apply IH.
Qed.

Lemma showZ_inj (z z' : Z) : showZ z = showZ z' -> z = z'.
Proof.
  unfold showZ. intros Heq. apply DecimalZ.to_int_inj.
  assert (Hnz : forall n, Z.to_int n <> Decimal.Pos Decimal.Nil
                          /\ Z.to_int n <> Decimal.Neg Decimal.Nil).
  { intros [|p|p]; simpl; split; try discriminate;
      intros [= Hp]; by apply DecimalPos.Unsigned.to_uint_nonnil in Hp. }
  destruct (Hnz z) as [H1 H2]. destruct (Hnz z') as [H1' H2'].
  pose proof (NilZero.isi _ H1 H2) as E. pose proof (NilZero.isi _ H1' H2') as E'.
  rewrite Heq in E. congruence.
Qed.

(** The identifier of a placed point determines its row. *)
Lemma placedId_row (r r' now now' : Z) :
  placedId r now = placedId r' now' -> r = r'.
Proof.
  unfold placedId. intros Heq. simpl in Heq. injection Heq as Heq.
  apply showZ_inj.
  eapply append_underscore_inj; [apply noUnderscore_showZ.. | exact Heq].
Qed.
Lemma append_inv_head (a b b' : string) : a +:+ b = a +:+ b' -> b = b'.
Proof.
  induction a as [|c a IH]; simpl; [done|]. intros [= Heq]. by apply IH.
Qed.

(** The identifier that [importPoints] generates determines the row and the
    clock and random readings it was built from. *)
Lemma freshId_inj (r r' : Z) (e e' : Z * string) :
  freshId r e = freshId r' e' -> r = r' /\ e = e'.
Proof.
  unfold freshId. intros Heq. simpl in Heq. injection Heq as Heq.
  assert (Hr : showZ r = showZ r').
  { eapply append_underscore_inj; [apply noUnderscore_showZ.. | exact Heq]. }
  rewrite Hr in Heq. apply (append_inv_head (showZ r')) in Heq.
  injection Heq as Heq.
  assert (Hn : showZ (fst e) = showZ (fst e')).
  { eapply append_underscore_inj; [apply noUnderscore_showZ.. | exact Heq]. }
  rewrite Hn in Heq. apply (append_inv_head (showZ (fst e'))) in Heq.
  injection Heq as Heq.
  apply showZ_inj in Hr, Hn. split; [done|].
  destruct e as [n1 s1], e' as [n2 s2]. simpl in *.
  apply (append_inv_head "") in Heq. congruence.
Qed.
End PlacedIds.

(** ** Sequences of store operations *)

Section StoreRuns.
Context {num : Type} `{!Number num}.
Implicit Types (s : Store num) (p : PointData num).

Lemma fold_left_importItem (env : Entropy) (data : list (Item.t num))
    (acc : list (PointData num)) (n : nat) :
  fst (fold_left (importItem env) data (acc, n)) = acc ++ importedFrom env n data.
Proof.
  revert acc n. induction data as [|item rest IH]; intros acc n; simpl.
  - by rewrite app_nil_r.
  - unfold validRow. destruct (Item.rowNum item) as [r|]; [|apply IH].
    destruct ((1 <=? r) && (r <=? 215)); [|apply IH].
    rewrite IH. unfold importedSize. by rewrite <- app_assoc.
Qed.

Lemma points_importPoints (env : Entropy) (data : list (Item.t num)) s :
  points (importPoints env data s) = sortWith byRowNum (importedFrom env 0 data).
Proof.
  unfold importPoints. cbn zeta.
  rewrite points_notify, points_saveToLocal. simpl.
  by rewrite fold_left_importItem.
Qed.

Lemma validRow_range (item : Item.t num) (r : Z) :
  validRow item = Some r <-> Item.rowNum item = Some r /\ 1 <= r <= 215.
Proof.
  unfold validRow. destruct (Item.rowNum item) as [r'|].
  - destruct (Z.leb_spec 1 r'), (Z.leb_spec r' 215); simpl;
      split; try (intros [= <-]; split; [done | lia]);
      try (intros [[= <-] ?]; done || lia); try done.
  - split; [done | by intros [? _]].
Qed.

Lemma importedFrom_kept (env : Entropy) (data : list (Item.t num)) (n : nat) :
  importedFrom env n data
  = imap (fun k item => importedPoint (env (n + k)%nat) item) (kept data).
Proof.
  revert n. induction data as [|item rest IH]; intros n; [done|].
  unfold kept in *. rewrite filter_cons. simpl.
  destruct (validRow item) as [r|] eqn:E.
  - rewrite decide_True by eauto. simpl.
    apply validRow_range in E as [Hr _].
    unfold importedPoint at 1. rewrite Hr, Nat.add_0_r. simpl. f_equal.
    rewrite IH. apply imap_ext. intros k item' _. simpl.
    by rewrite Nat.add_succ_r.
  - rewrite decide_False by (by intros [? ?]). apply IH.
Qed.

Lemma importedFrom_inRange (env : Entropy) (data : list (Item.t num)) (n : nat) :
  Forall inRange (importedFrom env n data).
Proof.
  revert n. induction data as [|item rest IH]; intros n; simpl; [constructor|].
  destruct (validRow item) as [r|] eqn:E; [|apply IH].
  constructor; [|apply IH]. apply validRow_range in E as [_ Hr]. exact Hr.
Qed.

Lemma importedFrom_same_row (env : Entropy) (data : list (Item.t num)) (n : nat)
    (r : Z) :
  1 <= r <= 215 ->
  length (filter (fun p => Point.rowNum p = r) (importedFrom env n data))
  = length (filter (fun item => Item.rowNum item = Some r) data).
Proof.
  intros Hr. revert n. induction data as [|item rest IH]; intros n; [done|].
  rewrite (filter_cons _ item). simpl.
  destruct (validRow item) as [r'|] eqn:E.
  - apply validRow_range in E as [E _]. rewrite filter_cons. simpl.
    rewrite E. destruct (decide (r' = r)) as [->|Hne].
    + rewrite decide_True by done. simpl. by rewrite IH.
    + rewrite decide_False by congruence. apply IH.
  - rewrite decide_False; [apply IH|].
    intros E'. assert (validRow item = Some r) as E''
      by (by apply validRow_range). congruence.
Qed.

Lemma NoDup_key_filter_length {A : Type} (key : A -> Z) (r : Z) (l : list A) :
  NoDup (map key l) -> (length (filter (fun a => key a = r) l) <= 1)%nat.
Proof.
  induction l as [|a l IH]; simpl; [lia|].
  intros Hn. apply NoDup_cons in Hn as [Hnot Hn].
  rewrite filter_cons. case_decide as Ha; [|by apply IH].
  simpl. destruct (filter _ l) as [|b l'] eqn:E; [simpl; lia|].
  exfalso. apply Hnot.
  assert (Hb : b ∈ filter (fun a0 => key a0 = r) l) by (rewrite E; left).
  apply list_elem_of_filter in Hb as [Hb Hin].
  apply list_elem_of_In, in_map_iff. exists b.
  split; [congruence | by apply list_elem_of_In].
Qed.

(** C3: [importPoints] discards the previous list.  The new list holds one
    point for each input item whose [rowNum] lies in 1..215 and none for the
    others, so it has as many points as there are such items, and it is in
    ascending [rowNum] order.  The point made from the [k]-th kept item has
    the item's [x], [y] and [rowNum], size 24 when the item has no size (or a
    falsy one) and the item's size otherwise, and a generated identifier:
    the text [c_], the row, [_], the [k]-th clock reading, [_] and the
    [k]-th random string.  The identifiers are pairwise distinct whenever
    the readings are, and the items' own ids play no part: the result is the
    same for any previous store and any input that differs in ids only. *)
Theorem importPoints_replaces (env : Entropy) (data : list (Item.t num))
    (s : Store num) :
  let pts := points (importPoints env data s) in
  pts ≡ₚ imap (fun k item => importedPoint (env k) item) (kept data)
  /\ length pts = length (kept data)
  /\ StronglySorted Z.le (map Point.rowNum pts)
  /\ Forall inRange pts
  /\ (forall k item,
        kept data !! k = Some item ->
        exists p r,
          In p pts /\ Item.rowNum item = Some r /\ 1 <= r <= 215
          /\ Point.id p = "c_" +:+ showZ r +:+ "_" +:+ showZ (fst (env k))
                          +:+ "_" +:+ snd (env k)
          /\ Point.rowNum p = r
          /\ Point.x p = Item.x item /\ Point.y p = Item.y item
          /\ (Item.size item = None -> Point.size p = lit 24)
          /\ (forall sz, Item.size item = Some sz ->
                         Point.size p = if truthy sz then sz else lit 24))
  /\ (forall p, In p pts ->
        exists k item r,
          kept data !! k = Some item /\ Item.rowNum item = Some r
          /\ Point.id p = "c_" +:+ showZ r +:+ "_" +:+ showZ (fst (env k))
                          +:+ "_" +:+ snd (env k))
  /\ ((forall i j, (i < j < length (kept data))%nat -> env i <> env j) ->
      NoDup (map Point.id pts))
  /\ (forall (s' : Store num) (data' : list (Item.t num)),
        map (fun i => (Item.x i, Item.y i, Item.size i, Item.rowNum i)) data'
        = map (fun i => (Item.x i, Item.y i, Item.size i, Item.rowNum i)) data ->
        points (importPoints env data' s') = pts).
Proof.
  cbn zeta. rewrite points_importPoints.
  assert (Hperm : sortWith byRowNum (importedFrom env 0 data)
                  ≡ₚ imap (fun k item => importedPoint (env k) item) (kept data)).
  { rewrite sortWith_perm, importedFrom_kept. done. }
  assert (Hkept : forall k item, kept data !! k = Some item ->
                    exists r, Item.rowNum item = Some r /\ 1 <= r <= 215).
  { intros k item Hk.
    assert (Hv : is_Some (validRow item)).
    { apply list_elem_of_lookup_2 in Hk.
      unfold kept in Hk. by apply list_elem_of_filter in Hk as [? _]. }
    destruct Hv as [r Hv]. apply validRow_range in Hv. by exists r. }
  split_and!.
  - exact Hperm.
  - by rewrite Hperm, length_imap.
  - apply (sortWith_sorted Point.rowNum).
  - rewrite sortWith_perm. apply importedFrom_inRange.
  - intros k item Hk. destruct (Hkept k item Hk) as (r & Hr & Hrange).
    exists (importedPoint (env k) item), r. split_and!; try done; try lia.
    + apply list_elem_of_In. rewrite Hperm.
      apply list_elem_of_lookup. exists k. by rewrite list_lookup_imap, Hk.
    + unfold importedPoint. by rewrite Hr.
    + unfold importedPoint. by rewrite Hr.
    + intros Hsz. simpl. unfold importedSize. by rewrite Hsz.
    + intros sz Hsz. simpl. unfold importedSize. by rewrite Hsz.
  - intros p Hp. apply list_elem_of_In in Hp. rewrite Hperm in Hp.
    apply list_elem_of_lookup in Hp as [k Hp].
    rewrite list_lookup_imap in Hp.
    destruct (kept data !! k) as [item|] eqn:Hk; [|done].
    injection Hp as <-. destruct (Hkept k item Hk) as (r & Hr & _).
    exists k, item, r. split_and!; try done.
    unfold importedPoint. by rewrite Hr.
  - intros Hdistinct.
    change (map Point.id ?l) with (Point.id <$> l). rewrite Hperm.
    apply NoDup_alt. intros i j x Hi Hj.
    rewrite list_lookup_fmap, list_lookup_imap in Hi, Hj.
    destruct (kept data !! i) as [a|] eqn:Ha; [|done].
    destruct (kept data !! j) as [b|] eqn:Hb; [|done].
    assert (Heq : freshId (default 0 (Item.rowNum a)) (env i)
                  = freshId (default 0 (Item.rowNum b)) (env j)).
    { unfold importedPoint in Hi, Hj. cbn [fmap option_fmap option_map Point.id] in Hi, Hj.
      congruence. }
    apply freshId_inj in Heq as [_ Heq].
    apply lookup_lt_Some in Ha, Hb.
    destruct (Nat.lt_trichotomy i j) as [Hlt|[->|Hlt]]; [|done|].
    + exfalso. apply (Hdistinct i j); [lia | done].
    + exfalso. apply (Hdistinct j i); [lia | done].
  - intros s' data' Heq. rewrite points_importPoints. f_equal.
    clear Hperm Hkept. generalize 0%nat.
    revert data' Heq. induction data as [|item rest IH];
      intros [|item' rest'] Heq n; try done.
    simpl in Heq. injection Heq as Hx Hy Hsz Hrow Hrest.
    simpl. unfold validRow, importedSize. rewrite Hrow, Hx, Hy, Hsz.
    destruct (Item.rowNum item) as [r|]; [|by apply IH].
    destruct ((1 <=? r) && (r <=? 215)); [|by apply IH].
    f_equal. by apply IH.
Qed.

(** C10: [importPoints] does not deduplicate.  For a row of 1..215 the new
    list has exactly as many points on that row as the input has items with
    that [rowNum]; with two or more such items the list has several points
    on one row. *)
Theorem importPoints_keeps_duplicates (env : Entropy) (data : list (Item.t num))
    (s : Store num) (r : Z) :
  1 <= r <= 215 ->
  let pts := points (importPoints env data s) in
  let same := filter (fun item => Item.rowNum item = Some r) data in
  length (filter (fun p => Point.rowNum p = r) pts) = length same
  /\ ((2 <= length same)%nat -> ~ NoDup (map Point.rowNum pts)).
Proof.
  intros Hr. cbn zeta. rewrite points_importPoints.
  assert (Hlen : length (filter (fun p => Point.rowNum p = r)
                           (sortWith byRowNum (importedFrom env 0 data)))
                 = length (filter (fun item => Item.rowNum item = Some r) data)).
  { unfold byRowNum. rewrite (sortWith_stable Point.rowNum).
    by apply importedFrom_same_row. }
  split; [exact Hlen|].
  intros Htwo Hnd.
  apply (NoDup_key_filter_length Point.rowNum r) in Hnd. lia.
Qed.
End StoreRuns.

(** ** The row range *)

Section RowRange.
Context {num : Type} `{!Number num}.
Implicit Types (s : Store num) (p : PointData num).

Lemma rowsInRange_notify s : rowsInRange s -> rowsInRange (notify s).
Proof. done. Qed.

Lemma rowsInRange_saveToLocal s : rowsInRange s -> rowsInRange (saveToLocal s).
Proof.
  intros [Hp Hs]. unfold saveToLocal.
  destruct (quotaExceeded s); [done|]. split; simpl; done.
Qed.

Lemma rowsInRange_set_points (l : list (PointData num)) s :
  Forall inRange l -> rowsInRange s -> rowsInRange (set_points l s).
Proof. intros Hl [_ Hs]. split; done. Qed.

Lemma rowsInRange_set_state (st : AppState num) s :
  rowsInRange s -> rowsInRange (set_state st s).
Proof. done. Qed.

Lemma rowsInRange_runOp (op : StoreOp num) s :
  opInRange op -> rowsInRange s -> rowsInRange (runOp op s).
Proof.
  intros Hop Hinv. pose proof Hinv as [Hp Hs].
  destruct op as [p|id| |env data|]; simpl in *.
  - unfold addPoint. destruct (existsb _ _); [done|].
    apply rowsInRange_notify, rowsInRange_saveToLocal, rowsInRange_set_points;
      [|done].
    rewrite sortWith_perm. apply Forall_app. split; [done|]. by constructor.
  - unfold removePoint.
    destruct (list_find _ _) as [[i q]|]; [|done]. simpl.
    apply rowsInRange_notify, rowsInRange_saveToLocal.
    assert (rowsInRange (set_points (delete i (points s)) s)) as Hdel.
    { apply rowsInRange_set_points; [|done]. by apply Forall_delete. }
    case_decide; [by apply rowsInRange_set_state | done].
  - unfold clearAllPoints.
    apply rowsInRange_notify, rowsInRange_saveToLocal, rowsInRange_set_state,
      rowsInRange_set_points; [constructor | done].
  - unfold importPoints. cbn zeta.
    apply rowsInRange_notify, rowsInRange_saveToLocal, rowsInRange_set_points;
      [|done].
    rewrite sortWith_perm, fold_left_importItem. apply importedFrom_inRange.
  - unfold loadFromLocal.
    destruct (savedPoints s) as [[| |l]|] eqn:E; try done. simpl.
    apply rowsInRange_notify, rowsInRange_set_points; [|done].
    destruct Hinv as [_ Hl]. unfold storedInRange in Hl. by rewrite E in Hl.
Qed.

(** C2, as the code has it: the store checks the row range in
    [importPoints] only.  After any sequence of [addPoint], [removePoint],
    [clearAllPoints], [importPoints] and [loadFromLocal] calls that starts
    from an empty list, every point has a row of 1..215 provided every point
    passed to [addPoint] has one and the list found in storage at the start,
    if any, has such rows only; the list in storage keeps that property. *)
Theorem row_range_invariant (ops : list (StoreOp num)) (s0 : Store num) :
  points s0 = [] ->
  storedInRange (savedPoints s0) ->
  Forall opInRange ops ->
  Forall inRange (points (runOps ops s0))
  /\ storedInRange (savedPoints (runOps ops s0)).
Proof.
  intros Hnil Hsaved Hops.
  assert (H0 : rowsInRange s0) by (split; [rewrite Hnil; constructor | done]).
  clear Hnil Hsaved. revert s0 H0.
  induction Hops as [|op ops Hop _ IH]; intros s0 H0; [exact H0|].
  simpl. apply IH. by apply rowsInRange_runOp.
Qed.
End RowRange.

(** ** The viewport, in exact arithmetic *)

Section ViewportFacts.
Local Open Scope Q_scope.

Lemma clamp_bounds (lo hi v : Q) : lo <= hi -> lo <= clamp lo hi v <= hi.
Proof.
  intros Hle. unfold clamp.
  destruct (Q.max_spec lo (Qmin hi v)) as [[? ->]|[? ->]];
    destruct (Q.min_spec hi v) as [[? Hm]|[? Hm]]; rewrite ?Hm in *; lra.
Qed.

Lemma clamp_within (lo hi v : Q) : lo <= v <= hi -> clamp lo hi v == v.
Proof.
  intros Hv. unfold clamp.
  destruct (Q.max_spec lo (Qmin hi v)) as [[? ->]|[? ->]];
    destruct (Q.min_spec hi v) as [[? Hm]|[? Hm]]; rewrite ?Hm in *; lra.
Qed.

Lemma pivot_algebra (P off old new new' : Q) :
  0 < old -> 0 < new -> new' == new ->
  (P - (P - (P - off) / old * new)) / new' == (P - off) / old.
Proof.
  intros Hold Hnew ->. field. split; lra.
Qed.

Lemma zoomedAbout_intro (px py factor : Q) (old new : AppState Q) :
  0 < scale old ->
  scale new == clamp 0.1 6 (clamp 0.1 6 (scale old * factor)) ->
  offsetX new == px - (px - offsetX old) / scale old * clamp 0.1 6 (scale old * factor) ->
  offsetY new == py - (py - offsetY old) / scale old * clamp 0.1 6 (scale old * factor) ->
  zoomedAbout px py factor old new.
Proof.
  intros Hold Hs Hx Hy.
  pose proof (clamp_bounds 0.1 6 (scale old * factor) ltac:(lra)) as Hb.
  assert (Hs' : scale new == clamp 0.1 6 (scale old * factor)).
  { rewrite Hs. by apply clamp_within. }
  assert (HX : imagePointX px new == imagePointX px old).
  { unfold imagePointX. rewrite Hx. apply pivot_algebra; [done | lra | done]. }
  assert (HY : imagePointY py new == imagePointY py old).
  { unfold imagePointY. rewrite Hy. apply pivot_algebra; [done | lra | done]. }
  unfold zoomedAbout. split_and!; try done.
  - assert (E : imagePointX px new - imagePointX px old == 0) by (rewrite HX; ring).
    rewrite E. discriminate.
  - assert (E : imagePointY py new - imagePointY py old == 0) by (rewrite HY; ring).
    rewrite E. discriminate.
Qed.


Lemma fitToContent_no_image {num : Type} `{!Number num} (app : App num) :
  backgroundImage (canvasManager app) = None -> fitToContent app = app.
Proof. intros Hno. unfold fitToContent. by rewrite Hno. Qed.

(** C6: with a background image of positive width and height loaded,
    [fitToContent] frames the sub-region that starts 15% from the left and
    28% from the top of the image and spans 72% of its width and 48% of its
    height: the scale becomes
    [min (containerWidth / (0.72 * imageWidth))
         (containerHeight / (0.48 * imageHeight)) * 0.92]
    clamped to 0.3..4 (the store's own clamp to 0.1..6 then changes nothing),
    and the offset sends the centre of the sub-region to the centre of the
    container. *)
Theorem fitToContent_frames (app : App Q) (imageWidth imageHeight : Q) :
  backgroundImage (canvasManager app) = Some (imageWidth, imageHeight) ->
  0 < imageWidth -> 0 < imageHeight ->
  let containerWidth := clientWidth (canvasManager app) in
  let containerHeight := clientHeight (canvasManager app) in
  let st := state (store (fitToContent app)) in
  let centreX := 0.15 * imageWidth + 0.72 * imageWidth / 2 in
  let centreY := 0.28 * imageHeight + 0.48 * imageHeight / 2 in
  scale st == clamp 0.3 4 (Qmin (containerWidth / (0.72 * imageWidth))
                                (containerHeight / (0.48 * imageHeight)) * 0.92)
  /\ 0.3 <= scale st <= 4
  /\ centreX * scale st + offsetX st == containerWidth / 2
  /\ centreY * scale st + offsetY st == containerHeight / 2.
Proof.
  intros Himg Hw Hh. cbn zeta. unfold fitToContent. rewrite Himg.
  cbn -[Qmax Qmin Qdiv Qmult Qplus Qminus].
  set (sc := Qmin _ _ * 0.92).
  set (sc' := Qmin _ _ * 0.92).
  assert (Hsc : sc == sc').
  { unfold sc, sc'.
    by rewrite (Qmult_comm imageWidth), (Qmult_comm imageHeight). }
  fold (clamp 0.3 4 sc). fold (clamp 0.1 6 (clamp 0.3 4 sc)).
  pose proof (clamp_bounds 0.3 4 sc ltac:(lra)) as Hb.
  assert (Hc : clamp 0.1 6 (clamp 0.3 4 sc) == clamp 0.3 4 sc)
    by (apply clamp_within; lra).
  split_and!.
  - rewrite Hc. unfold clamp. by rewrite Hsc.
  - rewrite Hc. lra.
  - rewrite Hc. lra.
  - rewrite Hc. field.
  - rewrite Hc. field.
Qed.

Lemma markerMetrics_intro (m : Marker Q) (size sc : Q) :
  0 < sc ->
  radius m = circleRadius size sc ->
  strokeWidth m = circleStrokeWidth sc ->
  fontSize m = textFontSize sc ->
  markerMetrics m size sc.
Proof.
  intros Hsc Hr Hs Hf. unfold markerMetrics. rewrite Hr, Hs, Hf. clear Hr Hs Hf.
  unfold circleRadius, visualSize, circleStrokeWidth, textFontSize.
  cbn -[Qmax Qdiv Qmult].
  assert (H2 : sc <= 2 <-> 1 <= 2 / sc).
  { split; intros H.
    - apply Qle_shift_div_l; lra.
    - apply (Qmult_le_compat_r _ _ sc) in H; [|lra].
      assert (E : 2 / sc * sc == 2) by (field; lra). rewrite E in H. lra. }
  assert (H11 : sc <= 1.375 <-> 8 <= 11 / sc).
  { split; intros H.
    - apply Qle_shift_div_l; lra.
    - apply (Qmult_le_compat_r _ _ sc) in H; [|lra].
      assert (E : 11 / sc * sc == 11) by (field; lra). rewrite E in H. lra. }
  split_and!; try reflexivity.
  - field. lra.
  - intros H. apply Q.max_r. by apply H2.
  - intros H. apply Q.max_l.
    destruct (Qlt_le_dec 1 (2 / sc)) as [Hlt|]; [|done].
    exfalso. assert (sc <= 2) by (apply H2; lra).
    assert (sc == 2) as E by lra. rewrite E in Hlt. revert Hlt. discriminate.
  - intros H. apply Q.max_r. by apply H11.
  - intros H. apply Q.max_l.
    destruct (Qlt_le_dec 8 (11 / sc)) as [Hlt|]; [|done].
    exfalso. assert (sc <= 1.375) by (apply H11; lra).
    assert (sc == 1.375) as E by lra. rewrite E in Hlt. revert Hlt. discriminate.
Qed.

Lemma createPointShape_lookup {num : Type} `{!Number num}
    (point : PointData num) (c : CanvasManager num) (s : Store num) :
  pointShapes (createPointShape point c s) !! Point.id point
  = Some (mkMarker (Point.x point) (Point.y point)
                   (circleRadius (Point.size point) (scale (state s)))
                   (circleStrokeWidth (scale (state s)))
                   (textFontSize (scale (state s)))
                   (showZ (Point.rowNum point))).
Proof. unfold createPointShape. cbn. apply lookup_insert_eq. Qed.

Lemma updateAllPointSizes_lookup {num : Type} `{!Number num}
    (c : CanvasManager num) (s : Store num) (id : string) (m : Marker num)
    (point : PointData num) :
  pointShapes (updateAllPointSizes c s) !! id = Some m ->
  getPointById id s = Some point ->
  radius m = circleRadius (Point.size point) (scale (state s))
  /\ strokeWidth m = circleStrokeWidth (scale (state s))
  /\ fontSize m = textFontSize (scale (state s)).
Proof.
  unfold updateAllPointSizes. cbn. rewrite map_lookup_imap.
  intros Hm Hp. destruct (pointShapes c !! id) as [g|]; [|done].
  cbn in Hm. rewrite Hp in Hm. by injection Hm as <-.
Qed.

(** C4, as the code has it: the marker that [createPointShape] builds for a
    point, and every marker that [updateAllPointSizes] re-sizes, has radius
    [size / scale / 2] (the visual diameter is [size / scale]), stroke width
    [max 1 (2 / scale)] and font size [max 8 (11 / scale)].  The points
    layer is scaled by the viewport scale, so on screen the radius is
    [size / 2] at every zoom level.  Stroke width and font size follow
    [1 / scale] only up to scale 2 and scale 11/8 respectively; beyond, they
    stay at their floors 1 and 8. *)
Theorem marker_metrics (c : CanvasManager Q) (s : Store Q) (point : PointData Q) :
  0 < scale (state s) ->
  let sc := scale (state s) in
  (exists m, pointShapes (createPointShape point c s) !! Point.id point = Some m
             /\ markerMetrics m (Point.size point) sc)
  /\ (forall id m,
        pointShapes (updateAllPointSizes c s) !! id = Some m ->
        getPointById id s = Some point ->
        markerMetrics m (Point.size point) sc)
  /\ (forall id m,
        pointShapes (updateTransform c s) !! id = Some m ->
        getPointById id s = Some point ->
        markerMetrics m (Point.size point) sc)
  /\ layerScale (pointsLayer (updateTransform c s)) = sc.
Proof.
  intros Hsc sc. split_and!.
  - eexists. split; [apply createPointShape_lookup|].
    by apply markerMetrics_intro.
  - intros id m Hm Hp.
    destruct (updateAllPointSizes_lookup _ _ _ _ _ Hm Hp) as (? & ? & ?).
    by apply markerMetrics_intro.
  - intros id m Hm Hp. unfold updateTransform in Hm.
    destruct (updateAllPointSizes_lookup _ _ _ _ _ Hm Hp) as (? & ? & ?).
    by apply markerMetrics_intro.
  - done.
Qed.
End ViewportFacts.

(** ** Export followed by import *)

Section RoundTrip.
Context {num : Type} `{!Number num}.
Implicit Types (s : Store num) (p : PointData num).

Lemma store_handleJSONImport (env : Entropy) (data : list (Item.t num))
    (app : App num) :
  store (handleJSONImport env (ParsedArray data) true app)
  = importPoints env (map normalizeItem data) (store app).
Proof. done. Qed.

Lemma importedFrom_exported (env : Entropy) (s : Store num)
    (l : list (PointData num)) (n : nat) :
  Forall reimportable l ->
  map pointFields
      (importedFrom env n
         (map normalizeItem
            (map readExported
               (map (fun p =>
                       let plateData := getPlateData (Point.rowNum p) s in
                       Exported.mk (Point.rowNum p) (Point.x p) (Point.y p)
                                   (Point.size p) (plate <$> plateData)
                                   (signals <$> plateData)) l))))
  = map pointFields l.
Proof.
  intros Hl. revert n. induction Hl as [|p l [Hr Ht] _ IH]; intros n; [done|].
  cbn [map importedFrom]. unfold validRow, importedSize.
  cbn [normalizeItem readExported Item.rowNum Item.row Item.size Item.x Item.y
       Exported.row Exported.x Exported.y Exported.size].
  unfold inRange in Hr.
  destruct (Z.leb_spec 1 (Point.rowNum p)); [|lia].
  destruct (Z.leb_spec (Point.rowNum p) 215); [|lia].
  cbn [andb map]. rewrite Ht, IH. done.
Qed.

(** C5, as the code has it: when every point of the store has a row of
    1..215 and a truthy (non-zero) size, importing the records that
    [exportFullData] produces, read back through the import path, which
    takes [rowNum] from [row], yields points with the same
    (rowNum, x, y, size) multiset; if the store's list is in ascending row
    order, the same sequence. *)
Theorem export_import_roundtrip (env : Entropy) (app : App num) :
  Forall reimportable (points (store app)) ->
  let file := ParsedArray (map readExported (exportFullData (store app))) in
  let app' := handleJSONImport env file true app in
  map pointFields (points (store app')) ≡ₚ map pointFields (points (store app))
  /\ length (points (store app')) = length (points (store app))
  /\ (StronglySorted Z.le (rows (store app)) ->
      map pointFields (points (store app')) = map pointFields (points (store app))).
Proof.
  intros Hok. cbn zeta.
  rewrite store_handleJSONImport, points_importPoints. unfold exportFullData.
  pose proof (importedFrom_exported env (store app) _ 0 Hok) as Hfields.
  set (imported := importedFrom _ _ _) in *.
  assert (Hperm : map pointFields (sortWith byRowNum imported)
                  ≡ₚ map pointFields (points (store app))).
  { by rewrite (Permutation_map pointFields (sortWith_perm byRowNum imported)),
      Hfields. }
  split_and!.
  - exact Hperm.
  - apply Permutation_length in Hperm. by rewrite !length_map in Hperm.
  - intros Hsorted. unfold byRowNum.
    rewrite (sortWith_id Point.rowNum); [done|].
    replace (map Point.rowNum imported) with (rows (store app)); [done|].
    unfold rows.
    transitivity (map (fun t : Z * num * num * num => t.1.1.1)
                      (map pointFields (points (store app)))).
    + rewrite map_map. done.
    + rewrite <- Hfields, map_map. done.
Qed.
End RoundTrip.

(** ** Concrete runs *)

Section Runs.
Local Open Scope Q_scope.

(** C2 (counterexample): [addPoint] stores a point on row 0, and
    [loadFromLocal] restores a saved point on row 300: neither checks the
    row range. *)
Lemma row_range_counterexample :
  ~ Forall inRange (points (runOps [OpAddPoint pointRow0] emptyStore))
  /\ ~ Forall inRange
       (points (runOps [OpLoadFromLocal]
                       (newStore (Some (PointArray [pointRow300])) false))).
Proof.
  split; intros H; apply Forall_inv in H; unfold inRange in H; simpl in H; lia.
Qed.

(** A run of all five operations with in-range [addPoint] arguments. *)
Lemma row_range_invariant_witness :
  let ops := [OpAddPoint pointA; OpAddPoint pointB;
              OpImportPoints env0 [Item.mk None 1 2 None (Some 300%Z) None;
                                   Item.mk None 3 4 (Some 12) (Some 7%Z) None];
              OpLoadFromLocal; OpRemovePoint "c_7_1700000000000";
              OpClearAllPoints; OpAddPoint pointA'] in
  Forall inRange (points (runOps ops emptyStore))
  /\ storedInRange (savedPoints (runOps ops emptyStore)).
Proof.
  cbn zeta. apply row_range_invariant.
  - reflexivity.
  - exact I.
  - repeat constructor; simpl; lia.
Defined.

(** Three [addPoint] calls, the last on a row already taken. *)
Lemma addPoint_rows_unique_witness :
  let s := fold_left (fun s p => addPoint p s) [pointB; pointA; pointA'] emptyStore in
  StronglySorted Z.lt (rows s) /\ NoDup (rows s).
Proof.
  cbn zeta.
  apply (addPoint_rows_unique emptyStore [pointB; pointA; pointA'] eq_refl).
Defined.

(** C7 (the failing input): four [addPoint] calls from the empty list, with
    rows 5, NaN, 3 and NaN.  All four points are stored: the second NaN row
    is not taken for a row already present, and is saved and notified like
    the others; NaN still does not count as a row in use; and the rows are
    in ascending order in no arrangement.  These are the calls that four
    clicks make with the row field reading 5, NaN, 3 and NaN, the last of
    them reported by the toast "Circle NaN added".  Whatever the store, a
    point whose row is NaN is never turned down. *)
Theorem addPoint_NaN_rows :
  let s := fold_left (fun s p => Parsed.addPoint p s)
                     [onRow5; onRowNaN; onRow3; onRowNaN'] parsedEmpty in
  let click s (c : Z * Q * Q * Parsed.Row) :=
    let '(now, x, y, nextRow) := c in Parsed.addPointAtPosition now x y nextRow s in
  Parsed.points s ≡ₚ [onRow5; onRowNaN; onRow3; onRowNaN']
  /\ Parsed.rows s ≡ₚ [Parsed.Int 5; Parsed.NaN; Parsed.Int 3; Parsed.NaN]
  /\ Parsed.notified s = 4%nat
  /\ Parsed.savedPoints s = Some (Parsed.points s)
  /\ Parsed.hasRowNum Parsed.NaN s = false
  /\ (forall l, l ≡ₚ Parsed.rows s -> ~ Parsed.ascending l)
  /\ fold_left (fun s c => fst (click s c)) fourClicks parsedEmpty = s
  /\ snd (click s (1700000000005%Z, 1, 2, Parsed.NaN))
     = mkToast "Circle NaN added" false
  /\ (forall (p : Parsed.Point Q) (t : Parsed.Store Q),
        Parsed.rowNum p = Parsed.NaN ->
        Parsed.points (Parsed.addPoint p t) ≡ₚ p :: Parsed.points t
        /\ Parsed.notified (Parsed.addPoint p t) = S (Parsed.notified t)).
Proof.
  cbn zeta.
  set (s := fold_left _ [onRow5; onRowNaN; onRow3; onRowNaN'] _).
  assert (Hs : s = Parsed.mkStore [onRow5; onRowNaN; onRow3; onRowNaN'] 4
                                  (Some [onRow5; onRowNaN; onRow3; onRowNaN'])
                                  false 24)
    by reflexivity.
  rewrite Hs. split_and!; try reflexivity.
  - intros l Hperm Hasc.
    assert (Hin : In Parsed.NaN l).
    { apply list_elem_of_In. rewrite Hperm. cbn. set_solver. }
    apply ascending_NaN in Hasc; [|done]. subst l.
    apply Permutation_length in Hperm. done.
  - intros p t Hrow. by destruct (addPoint_NaN p t Hrow) as (H1 & H2 & _).
Qed.

(** Two items on row 5 give two points on row 5. *)
Lemma importPoints_keeps_duplicates_witness :
  let data := [Item.mk (Some "x") 1 2 None (Some 5%Z) None;
               Item.mk None 3 4 (Some 12) (Some 9%Z) None;
               Item.mk (Some "x") 5 6 (Some 30) (Some 5%Z) None] in
  ~ NoDup (map Point.rowNum (points (importPoints env0 data emptyStore))).
Proof.
  cbn zeta.
  refine (proj2 (importPoints_keeps_duplicates env0 _ emptyStore 5%Z _) _).
  - lia.
  - simpl. lia.
Defined.

(** C5 (counterexample): a point of size 0 comes back with size 24, because
    [item.size || 24] takes 0 for a missing size. *)
Lemma export_import_counterexample :
  let app := mkApp canvas0 (addPoint pointSize0 emptyStore) in
  let file := ParsedArray (map readExported (exportFullData (store app))) in
  let app' := handleJSONImport env0 file true app in
  map pointFields (points (store app')) = [(1%Z, 10, 20, 24)]
  /\ map pointFields (points (store app)) = [(1%Z, 10, 20, 0)]
  /\ ~ (map pointFields (points (store app'))
        ≡ₚ map pointFields (points (store app))).
Proof.
  cbn zeta. rewrite store_handleJSONImport.
  assert (H1 : map pointFields
                 (points (importPoints env0
                    (map normalizeItem
                       (map readExported
                          (exportFullData (addPoint pointSize0 emptyStore))))
                    (addPoint pointSize0 emptyStore)))
               = [(1%Z, 10, 20, 24)]) by reflexivity.
  assert (H2 : map pointFields (points (addPoint pointSize0 emptyStore))
               = [(1%Z, 10, 20, 0)]) by reflexivity.
  cbn [store]. rewrite H1, H2. split_and!; [done..|].
  intros Hperm. apply Permutation_singleton_l in Hperm. discriminate.
Qed.

(** Two points of size 24 survive the round trip. *)
Lemma export_import_roundtrip_witness :
  let app := mkApp canvas0 (addPoint pointA (addPoint pointB emptyStore)) in
  let file := ParsedArray (map readExported (exportFullData (store app))) in
  let app' := handleJSONImport env0 file true app in
  map pointFields (points (store app')) ≡ₚ map pointFields (points (store app)).
Proof.
  cbn zeta.
  refine (proj1 (export_import_roundtrip env0
                   (mkApp canvas0 (addPoint pointA (addPoint pointB emptyStore))) _)).
  repeat constructor; simpl; lia.
Defined.

(** C4 (counterexample): at scale 1 the marker of a point of size 24 has
    radius 12, not 24; at scale 4 its stroke width is 1 and its font size 8,
    not a quarter of the 2 and 11 they are at scale 1. *)
Lemma marker_metrics_counterexample :
  let at1 := emptyStore in
  let at4 := setScale 4 emptyStore in
  exists m1 m4,
    pointShapes (createPointShape pointA canvas0 at1) !! Point.id pointA = Some m1
    /\ pointShapes (createPointShape pointA canvas0 at4) !! Point.id pointA = Some m4
    /\ scale (state at1) == 1 /\ scale (state at4) == 4
    /\ radius m1 == 12
    /\ ~ radius m1 == Point.size pointA / scale (state at1)
    /\ strokeWidth m1 == 2 /\ strokeWidth m4 == 1
    /\ ~ strokeWidth m4 == strokeWidth m1 / 4
    /\ fontSize m1 == 11 /\ fontSize m4 == 8
    /\ ~ fontSize m4 == fontSize m1 / 4.
Proof.
  cbn zeta. eexists _, _.
  split; [apply createPointShape_lookup|].
  split; [apply createPointShape_lookup|].
  split_and!; try reflexivity; discriminate.
Qed.

(** The marker of [pointA] at scale 1. *)
Lemma marker_metrics_witness :
  exists m, pointShapes (createPointShape pointA canvas0 emptyStore)
              !! Point.id pointA = Some m
            /\ markerMetrics m (Point.size pointA) (scale (state emptyStore)).
Proof.
  refine (proj1 (marker_metrics canvas0 emptyStore pointA _)).
  reflexivity.
Defined.



(** A 1000 x 1000 image in an 800 x 600 container: scale 920/900. *)
Lemma fitToContent_frames_witness :
  let st := state (store (fitToContent appWithImage)) in
  scale st == 920 # 900
  /\ (0.15 * 1000 + 0.72 * 1000 / 2) * scale st + offsetX st == 800 / 2
  /\ (0.28 * 1000 + 0.48 * 1000 / 2) * scale st + offsetY st == 600 / 2.
Proof.
  cbn zeta.
  destruct (fitToContent_frames appWithImage 1000 1000) as (H1 & _ & H3 & H4).
  - reflexivity.
  - reflexivity.
  - reflexivity.
  - split_and!; [reflexivity | exact H3 | exact H4].
Defined.

(** The same runs in binary64. *)
(** [removePoint] on a store with two points, the first one selected. *)
Example removePoint_runs :
  let s := setSelectedPointId (Some (Point.id pointA))
             (addPoint pointB (addPoint pointA emptyStore)) in
  let s' := snd (removePoint (Point.id pointA) s) in
  removePoint "c_9_0" s = (None, s)
  /\ fst (removePoint (Point.id pointA) s) = Some pointA
  /\ points s' = [pointB]
  /\ selectedPointId (state s') = None
  /\ savedPoints s' = Some (PointArray [pointB])
  /\ notified s' = S (notified s)
  /\ selectedPointId (state (snd (removePoint (Point.id pointB) s)))
     = Some (Point.id pointA).
Proof. cbn zeta. split_and!; reflexivity. Qed.

(** [importPoints] drops row 300 and the item without a row, keeps both
    items on row 3 in their order, and defaults a missing or zero size. *)
Example importPoints_runs :
  let data := [Item.mk (Some "mine") 1 2 None (Some 7%Z) None;
               Item.mk None 3 4 (Some 12) (Some 300%Z) None;
               Item.mk None 5 6 (Some 0) (Some 3%Z) None;
               Item.mk None 7 8 (Some 30) (Some 3%Z) None;
               Item.mk None 9 9 (Some 30) None None] in
  points (importPoints env0 data (addPoint pointA emptyStore))
  = [Point.mk "c_3_1700000000001_k3x9q0zab" 5 6 24 3;
     Point.mk "c_3_1700000000002_k3x9q0zab" 7 8 30 3;
     Point.mk "c_7_1700000000000_k3x9q0zab" 1 2 24 7].
Proof. reflexivity. Qed.

Example binary64_runs :
  let app : App float :=
    mkApp (mkCanvasManager 800 600 (Some (1000, 1000))
                           (mkLayer 0 0 1) (mkLayer 0 0 1) ∅)%float
          (newStore None false) in
  let fitted := state (store (fitToContent app)) in
  let point : PointData float := Point.mk "a" 100%float 50%float 24%float 1%Z in
  scale fitted = (800 / 720 * 0.92)%float
  /\ (radius <$> pointShapes (createPointShape point (canvasManager app) (store app))
                 !! "a") = Some 12%float
  /\ scale (state (store (onWheel (-3)%float (Some (100, 100)%float) app)))
     = 1.12%float
  /\ scale (state (store (zoom 100%float app))) = 6%float
  /\ scale (state (store (zoom 0%float app))) = 0.1%float
  /\ (let moved := setOffset (-123.4) 55.5 (setScale 1.7 (store app)) in
      let old := state moved in
      let new := state (store (onWheel (-3) (Some (357.5, 211.25))
                                       (mkApp (canvasManager app) moved))) in
      PrimFloat.leb
        (PrimFloat.abs ((357.5 - offsetX new) / scale new
                        - (357.5 - offsetX old) / scale old)) 1e-6 = true
      /\ PrimFloat.leb
           (PrimFloat.abs ((211.25 - offsetY new) / scale new
                           - (211.25 - offsetY old) / scale old)) 1e-6 = true)%float.
Proof. cbn zeta. split_and!; reflexivity. Qed.
End Runs.

(** * More properties *)

(** ** Persistence *)

Section Persistence.
Context {num : Type} `{!Number num}.
Implicit Types (s : Store num) (p : PointData num).

Lemma quotaExceeded_saveToLocal s :
  quotaExceeded (saveToLocal s) = quotaExceeded s.
Proof. unfold saveToLocal. by destruct (quotaExceeded s) eqn:E. Qed.

Lemma quotaExceeded_runOp (op : StoreOp num) s :
  quotaExceeded (runOp op s) = quotaExceeded s.
Proof.
  destruct op as [p|id| |env data|]; simpl.
  - unfold addPoint. destruct (existsb _ _); [done|].
    simpl. by rewrite quotaExceeded_saveToLocal.
  - unfold removePoint. destruct (list_find _ _) as [[i q]|]; [|done].
    simpl. rewrite quotaExceeded_saveToLocal. by case_decide.
  - unfold clearAllPoints. simpl. by rewrite quotaExceeded_saveToLocal.
  - unfold importPoints. simpl. by rewrite quotaExceeded_saveToLocal.
  - unfold loadFromLocal. by destruct (savedPoints s) as [[| |l]|].
Qed.

Lemma restoredFrom_saved s (l : list (PointData num)) :
  savedPoints s = Some (PointArray l) -> restoredFrom s = l.
Proof. intros Hs. unfold restoredFrom, loadFromLocal. simpl. by rewrite Hs. Qed.

Lemma saved_after_save s :
  quotaExceeded s = false ->
  savedPoints (notify (saveToLocal s)) = Some (PointArray (points s))
  /\ points (notify (saveToLocal s)) = points s.
Proof. intros Hq. unfold saveToLocal. rewrite Hq. done. Qed.

Lemma restoredFrom_after_save s :
  quotaExceeded s = false ->
  restoredFrom (notify (saveToLocal s)) = points (notify (saveToLocal s)).
Proof.
  intros Hq. destruct (saved_after_save s Hq) as [Hs Hp].
  rewrite Hp. by apply restoredFrom_saved.
Qed.

Lemma restoredFrom_runOp (op : StoreOp num) s :
  quotaExceeded s = false ->
  restoredFrom s = points s ->
  restoredFrom (runOp op s) = points (runOp op s).
Proof.
  intros Hq Hsync.
  destruct op as [p|id| |env data|]; simpl.
  - unfold addPoint. destruct (existsb _ _); [done|].
    by apply restoredFrom_after_save.
  - unfold removePoint. destruct (list_find _ _) as [[i q]|]; [|done]. simpl.
    apply restoredFrom_after_save. by case_decide.
  - unfold clearAllPoints. by apply restoredFrom_after_save.
  - unfold importPoints. cbn zeta. by apply restoredFrom_after_save.
  - unfold loadFromLocal. destruct (savedPoints s) as [[| |l]|] eqn:E; try done.
    simpl. unfold restoredFrom, loadFromLocal. simpl. by rewrite E.
Qed.

(** X1: while [localStorage] accepts writes, the stored list is the current
    list after every operation: starting from a store whose storage restores
    to its list (an empty store over empty storage, say), after any sequence
    of [addPoint], [removePoint], [clearAllPoints], [importPoints] and
    [loadFromLocal], a new session's [loadFromLocal] returns exactly the
    points the store holds. *)
Theorem storage_restores_points (ops : list (StoreOp num)) (s0 : Store num) :
  quotaExceeded s0 = false ->
  restoredFrom s0 = points s0 ->
  restoredFrom (runOps ops s0) = points (runOps ops s0).
Proof.
  intros Hq Hsync. revert s0 Hq Hsync.
  induction ops as [|op ops IH]; intros s0 Hq Hsync; [done|].
  simpl. apply IH.
  - by rewrite quotaExceeded_runOp.
  - by apply restoredFrom_runOp.
Qed.

Lemma savedPoints_full s :
  quotaExceeded s = true -> savedPoints (notify (saveToLocal s)) = savedPoints s.
Proof. intros Hq. unfold saveToLocal. by rewrite Hq. Qed.

Lemma runOp_withQuota_storage (op : StoreOp num) s :
  quotaExceeded s = true -> savedPoints (runOp op s) = savedPoints s.
Proof.
  intros Hq. destruct op as [p|id| |env data|]; cbn [runOp].
  - unfold addPoint. destruct (existsb _ _); [done|].
    rewrite savedPoints_full; simpl; done.
  - unfold removePoint. destruct (list_find _ _) as [[i q]|]; [|done].
    cbn [snd]. rewrite savedPoints_full; case_decide; simpl; done.
  - unfold clearAllPoints. rewrite savedPoints_full; simpl; done.
  - unfold importPoints. cbn zeta. rewrite savedPoints_full; simpl; done.
  - unfold loadFromLocal. destruct (savedPoints s) as [[| |l]|] eqn:E; simpl; congruence.
Qed.

Lemma runOp_memory (op : StoreOp num) (s s' : Store num) :
  ~ isLoad op -> memory s = memory s' -> memory (runOp op s) = memory (runOp op s').
Proof.
  intros Hop Hm. unfold memory in Hm. injection Hm as Hst Hpts Hn.
  destruct op as [p|id| |env data|]; simpl in *; try done.
  - unfold addPoint. rewrite Hpts. destruct (existsb _ _).
    + unfold memory. congruence.
    + unfold memory. simpl.
      rewrite !state_saveToLocal, !points_saveToLocal, !notified_saveToLocal.
      simpl. congruence.
  - unfold removePoint. rewrite Hpts.
    destruct (list_find _ _) as [[i q]|]; [|unfold memory; simpl; congruence].
    unfold memory. simpl. rewrite Hst.
    case_decide; simpl;
      rewrite !state_saveToLocal, !points_saveToLocal, !notified_saveToLocal;
      simpl; congruence.
  - unfold clearAllPoints, memory. simpl.
    rewrite !state_saveToLocal, !points_saveToLocal, !notified_saveToLocal.
    simpl. congruence.
  - unfold importPoints, memory. simpl.
    rewrite !state_saveToLocal, !points_saveToLocal, !notified_saveToLocal.
    simpl. congruence.
Qed.

(** X2: when [localStorage.setItem] throws (quota exceeded), no operation
    changes what is stored, yet the operations other than [loadFromLocal]
    change the state, the point list and the notification count exactly as
    they do when writes succeed: a failed save never disturbs the session. *)
Theorem full_storage_is_harmless (ops : list (StoreOp num)) (s : Store num) :
  Forall (fun op => ~ isLoad op) ops ->
  savedPoints (runOps ops (withQuota true s)) = savedPoints s
  /\ memory (runOps ops (withQuota true s)) = memory (runOps ops (withQuota false s)).
Proof.
  intros Hops. split.
  - clear Hops.
    assert (Hgen : forall s1, quotaExceeded s1 = true ->
                     savedPoints (runOps ops s1) = savedPoints s1).
    { induction ops as [|op ops IH]; intros s1 Hq; [done|]. simpl.
      rewrite IH by (by rewrite quotaExceeded_runOp).
      by apply runOp_withQuota_storage. }
    by rewrite Hgen.
  - assert (Hgen : forall s1 s2, memory s1 = memory s2 ->
                     memory (runOps ops s1) = memory (runOps ops s2)).
    { induction Hops as [|op ops Hop _ IH]; intros s1 s2 Hm; [done|]. simpl.
      apply IH. by apply runOp_memory. }
    by apply Hgen.
Qed.
End Persistence.

(** ** What the point operations leave alone, and the suggested row *)

Section StoreComposition.
Context {num : Type} `{!Number num}.
Implicit Types (s : Store num) (p : PointData num).

Lemma runOp_frame (op : StoreOp num) s :
  viewSettings (state (runOp op s)) = viewSettings (state s)
  /\ excelData (runOp op s) = excelData s
  /\ imageBase64 (runOp op s) = imageBase64 s
  /\ (selectedPointId (state (runOp op s)) = selectedPointId (state s)
      \/ selectedPointId (state (runOp op s)) = None).
Proof.
  assert (Hsame : forall s' : Store num,
            state s' = state s -> excelData s' = excelData s ->
            imageBase64 s' = imageBase64 s ->
            viewSettings (state s') = viewSettings (state s)
            /\ excelData s' = excelData s /\ imageBase64 s' = imageBase64 s
            /\ (selectedPointId (state s') = selectedPointId (state s)
                \/ selectedPointId (state s') = None)).
  { intros s' -> -> ->. auto. }
  assert (Hclear : forall s' : Store num,
            state s' = set_selected None (state s) -> excelData s' = excelData s ->
            imageBase64 s' = imageBase64 s ->
            viewSettings (state s') = viewSettings (state s)
            /\ excelData s' = excelData s /\ imageBase64 s' = imageBase64 s
            /\ (selectedPointId (state s') = selectedPointId (state s)
                \/ selectedPointId (state s') = None)).
  { intros s' -> -> ->. auto. }
  destruct op as [p|id| |env data|]; cbn [runOp].
  - unfold addPoint. destruct (existsb _ _); [by apply Hsame|].
    apply Hsame; unfold saveToLocal; simpl; by destruct (quotaExceeded s).
  - unfold removePoint.
    destruct (list_find _ _) as [[i q]|]; [|by apply Hsame].
    cbn [snd]. case_decide.
    + apply Hclear; unfold saveToLocal; simpl; by destruct (quotaExceeded s).
    + apply Hsame; unfold saveToLocal; simpl; by destruct (quotaExceeded s).
  - apply Hclear; unfold clearAllPoints, saveToLocal; simpl;
      by destruct (quotaExceeded s).
  - apply Hsame; unfold importPoints, saveToLocal; simpl;
      by destruct (quotaExceeded s).
  - unfold loadFromLocal.
    destruct (savedPoints s) as [[| |l]|]; by apply Hsame.
Qed.

(** X3: the operations on the point list never move the view: after any
    sequence of [addPoint], [removePoint], [clearAllPoints], [importPoints]
    and [loadFromLocal], the mode, scale, offset, circle size and drag state
    are what they were, and so are the dataset and the image; the selection
    is what it was or has been cleared. *)
Theorem point_operations_keep_view (ops : list (StoreOp num)) (s : Store num) :
  viewSettings (state (runOps ops s)) = viewSettings (state s)
  /\ excelData (runOps ops s) = excelData s
  /\ imageBase64 (runOps ops s) = imageBase64 s
  /\ (selectedPointId (state (runOps ops s)) = selectedPointId (state s)
      \/ selectedPointId (state (runOps ops s)) = None).
Proof.
  revert s. induction ops as [|op ops IH]; intros s; [by auto|].
  simpl. destruct (IH (runOp op s)) as (H1 & H2 & H3 & H4).
  destruct (runOp_frame op s) as (G1 & G2 & G3 & G4).
  split_and!; try congruence.
  destruct H4 as [H4|H4]; [|by right].
  destruct G4 as [G4|G4]; [left | right]; congruence.
Qed.

Lemma nextRow_cases s :
  let r := getNextAvailableRow s in
  (~ In r (rows s) /\ 1 <= r <= 215 /\ forall j, 1 <= j < r -> In j (rows s))
  \/ (r = 215 /\ forall j, 1 <= j <= 215 -> In j (rows s)).
Proof.
  unfold getNextAvailableRow.
  set (E := list_to_set _ : gset Z).
  destruct (scanRows_spec E 215 1) as [(H1 & H2 & H3)|[H1 H2]]; cbn zeta.
  - left. split; [|split; [lia|]].
    + intros Hin. by apply H1, elem_of_existingRows.
    + intros j Hj. by apply elem_of_existingRows, H3.
  - right. split; [done|]. intros j Hj. apply elem_of_existingRows, H2. lia.
Qed.

(** X4: the row that [getNextAvailableRow] suggests is accepted by
    [addPoint] whenever a row of 1..215 is free: the point is added, the row
    is then in use, and the next suggestion is no smaller, and larger as
    long as a row remains free.  When all 215 rows are in use, the suggested
    row 215 is taken and [addPoint] with it changes nothing. *)
Theorem suggested_row_is_accepted (p : PointData num) (s : Store num) :
  Point.rowNum p = getNextAvailableRow s ->
  ((exists i, 1 <= i <= 215 /\ ~ In i (rows s)) ->
     points (addPoint p s) ≡ₚ p :: points s
     /\ hasRowNum (Point.rowNum p) (addPoint p s) = true
     /\ getNextAvailableRow s <= getNextAvailableRow (addPoint p s)
     /\ ((exists i, 1 <= i <= 215 /\ ~ In i (rows (addPoint p s))) ->
         getNextAvailableRow s < getNextAvailableRow (addPoint p s)))
  /\ ((forall i, 1 <= i <= 215 -> In i (rows s)) -> addPoint p s = s).
Proof.
  intros Hrow. split.
  - intros (i & Hi & Hfree).
    destruct (nextRow_cases s) as [(Hnot & Hr & Hsmall)|[_ Hall]];
      [|by exfalso; apply Hfree, Hall].
    rewrite <- Hrow in Hnot.
    assert (Hperm : points (addPoint p s) ≡ₚ p :: points s).
    { rewrite (points_addPoint_absent _ _ Hnot), sortWith_perm.
      symmetry. apply Permutation_cons_append. }
    assert (Hrows : forall j, In j (rows (addPoint p s))
                              <-> j = Point.rowNum p \/ In j (rows s)).
    { intros j. unfold rows.
      rewrite (Permutation_map Point.rowNum Hperm). simpl.
      split; intros [Hj|Hj]; auto. }
    assert (Hlow : forall j, 1 <= j <= getNextAvailableRow s ->
                             In j (rows (addPoint p s))).
    { intros j Hj. apply Hrows.
      destruct (decide (j = getNextAvailableRow s)) as [->|Hne]; [by left|].
      right. apply Hsmall. lia. }
    split_and!.
    + exact Hperm.
    + unfold hasRowNum. apply existsb_rowNum. apply Hrows. by left.
    + destruct (nextRow_cases (addPoint p s)) as [(Hnot' & Hr' & _)|[-> _]]; [|lia].
      destruct (Z.le_gt_cases (getNextAvailableRow s)
                              (getNextAvailableRow (addPoint p s))); [done|].
      exfalso. apply Hnot', Hlow. lia.
    + intros (k & Hk & Hkfree).
      destruct (nextRow_cases (addPoint p s)) as [(Hnot' & Hr' & _)|[_ Hall']];
        [|by exfalso; apply Hkfree, Hall'].
      destruct (Z.lt_ge_cases (getNextAvailableRow s)
                              (getNextAvailableRow (addPoint p s))); [done|].
      exfalso. apply Hnot', Hlow. lia.
  - intros Hall. apply addPoint_present. apply Hall.
    rewrite Hrow. destruct (nextRow_cases s) as [(_ & Hr & _)|[-> _]]; lia.
Qed.
End StoreComposition.

(** ** Zooming, panning and fitting, in exact arithmetic *)

Section Navigation.
Local Open Scope Q_scope.

Lemma clamp_proper (lo hi v v' : Q) : v == v' -> clamp lo hi v == clamp lo hi v'.
Proof. intros Hv. unfold clamp. by rewrite Hv. Qed.

Lemma zoom_zoomedAbout (app : App Q) (factor : Q) :
  0.1 <= scale (state (store app)) <= 6 ->
  zoomedAbout (clientWidth (canvasManager app) / 2)
              (clientHeight (canvasManager app) / 2)
              factor (state (store app)) (state (store (zoom factor app))).
Proof. intros Hs. apply zoomedAbout_intro; [lra | reflexivity..]. Qed.

Lemma onWheel_zoomedAbout (app : App Q) (deltaY posX posY : Q) :
  0.1 <= scale (state (store app)) <= 6 ->
  zoomedAbout posX posY (if nlt deltaY 0 then 1.12 else 0.89) (state (store app))
              (state (store (onWheel deltaY (Some (posX, posY)) app))).
Proof.
  intros Hs. apply zoomedAbout_intro; [lra | | |];
    cbn; destruct (Qle_bool 0 deltaY); reflexivity.
Qed.

Lemma zoomedAbout_scale_range (px py f : Q) (old new : AppState Q) :
  zoomedAbout px py f old new -> 0.1 <= scale new <= 6.
Proof.
  intros (Hs & _). rewrite Hs. apply clamp_bounds. lra.
Qed.

Lemma offsetX_from_image (px : Q) (st : AppState Q) :
  0 < scale st -> offsetX st == px - imagePointX px st * scale st.
Proof. intros Hs. unfold imagePointX. field. lra. Qed.

Lemma offsetY_from_image (py : Q) (st : AppState Q) :
  0 < scale st -> offsetY st == py - imagePointY py st * scale st.
Proof. intros Hs. unfold imagePointY. field. lra. Qed.

(** Two zooms about one pivot, the first of which stays inside the scale
    range, amount to one zoom by the product of the factors. *)
Lemma zoomedAbout_compose (px py f1 f2 : Q) (a b c d : AppState Q) :
  0.1 <= scale a <= 6 ->
  0.1 <= scale a * f1 <= 6 ->
  zoomedAbout px py f1 a b ->
  zoomedAbout px py f2 b c ->
  zoomedAbout px py (f1 * f2) a d ->
  sameView c d.
Proof.
  intros Ha Hin Hab Hbc Had.
  pose proof (zoomedAbout_scale_range _ _ _ _ _ Hbc) as Hc.
  pose proof (zoomedAbout_scale_range _ _ _ _ _ Had) as Hd.
  destruct Hab as (Sb & Xb & Yb & _).
  destruct Hbc as (Sc & Xc & Yc & _).
  destruct Had as (Sd & Xd & Yd & _).
  assert (Hb : scale b == scale a * f1) by (rewrite Sb; by apply clamp_within).
  assert (Hscale : scale c == scale d).
  { rewrite Sc, Sd. apply clamp_proper. rewrite Hb. ring. }
  unfold sameView. split; [exact Hscale|]. split.
  - rewrite (offsetX_from_image px c), (offsetX_from_image px d) by lra.
    by rewrite Xc, Xb, Xd, Hscale.
  - rewrite (offsetY_from_image py c), (offsetY_from_image py d) by lra.
    by rewrite Yc, Yb, Yd, Hscale.
Qed.

Lemma zoomedAbout_by_one (px py f : Q) (a d : AppState Q) :
  0.1 <= scale a <= 6 -> f == 1 -> zoomedAbout px py f a d -> sameView d a.
Proof.
  intros Ha Hf Had.
  pose proof (zoomedAbout_scale_range _ _ _ _ _ Had) as Hd.
  destruct Had as (Sd & Xd & Yd & _).
  assert (Hscale : scale d == scale a).
  { rewrite Sd. rewrite <- (clamp_within 0.1 6 (scale a) Ha) at 2.
    apply clamp_proper. rewrite Hf. ring. }
  unfold sameView. split; [exact Hscale|]. split.
  - rewrite (offsetX_from_image px d), (offsetX_from_image px a) by lra.
    by rewrite Xd, Hscale.
  - rewrite (offsetY_from_image py d), (offsetY_from_image py a) by lra.
    by rewrite Yd, Hscale.
Qed.

Lemma sameView_trans (a b c : AppState Q) : sameView a b -> sameView b c -> sameView a c.
Proof.
  intros (H1 & H2 & H3) (G1 & G2 & G3). unfold sameView.
  split_and!; etransitivity; eassumption.
Qed.

(** X5: two [zoom] calls in a row, the first of which stays within the
    scale range, give the view of a single [zoom] by the product of the
    factors.  In particular zooming in by 1.25 and out by 0.8 (the buttons
    and the [+] and [-] keys) brings the view back, scale and offset, as
    long as zooming in did not hit the upper limit 6. *)
Theorem zoom_composes (app : App Q) (f1 f2 : Q) :
  0.1 <= scale (state (store app)) <= 6 ->
  0.1 <= scale (state (store app)) * f1 <= 6 ->
  sameView (state (store (zoom f2 (zoom f1 app))))
           (state (store (zoom (f1 * f2) app)))
  /\ (f1 * f2 == 1 ->
      sameView (state (store (zoom f2 (zoom f1 app)))) (state (store app)))
  /\ (scale (state (store app)) * 1.25 <= 6 ->
      sameView (state (store (zoom 0.8 (zoom 1.25 app)))) (state (store app))).
Proof.
  intros Ha Hin.
  assert (Hcompose : forall g1 g2, 0.1 <= scale (state (store app)) * g1 <= 6 ->
            sameView (state (store (zoom g2 (zoom g1 app))))
                     (state (store (zoom (g1 * g2) app)))).
  { intros g1 g2 Hg.
    pose proof (zoom_zoomedAbout app g1 Ha) as H1.
    pose proof (zoomedAbout_scale_range _ _ _ _ _ H1) as Hb.
    pose proof (zoom_zoomedAbout (zoom g1 app) g2 Hb) as H2.
    pose proof (zoom_zoomedAbout app (g1 * g2) Ha) as H3.
    exact (zoomedAbout_compose _ _ _ _ _ _ _ _ Ha Hg H1 H2 H3). }
  assert (Hone : forall g, g == 1 ->
            sameView (state (store (zoom g app))) (state (store app))).
  { intros g Hg.
    exact (zoomedAbout_by_one _ _ _ _ _ Ha Hg (zoom_zoomedAbout app g Ha)). }
  split_and!.
  - by apply Hcompose.
  - intros Hprod. eapply sameView_trans; [by apply Hcompose | by apply Hone].
  - intros Hmax. eapply sameView_trans; [apply Hcompose; lra | by apply Hone].
Qed.

(** X6: one wheel notch up followed by one notch down at the same pointer
    position does not restore the zoom level: as long as the scale stays
    within its range, it ends at 0.9968 times what it was (1.12 * 0.89),
    while the image point under the pointer stays the same. *)
Theorem wheel_up_down_drifts (app : App Q) (up down posX posY : Q) :
  0.1 <= scale (state (store app)) <= 6 ->
  up < 0 -> 0 <= down ->
  scale (state (store app)) * 1.12 <= 6 ->
  0.1 <= scale (state (store app)) * 0.9968 ->
  let pos := Some (posX, posY) in
  let st' := state (store (onWheel down pos (onWheel up pos app))) in
  scale st' == scale (state (store app)) * 0.9968
  /\ imagePointX posX st' == imagePointX posX (state (store app))
  /\ imagePointY posY st' == imagePointY posY (state (store app)).
Proof.
  intros Ha Hup Hdown Hmax Hmin pos st'.
  pose proof (onWheel_zoomedAbout app up posX posY Ha) as H1.
  pose proof (zoomedAbout_scale_range _ _ _ _ _ H1) as Hb.
  pose proof (onWheel_zoomedAbout (onWheel up pos app) down posX posY Hb) as H2.
  assert (Eup : nlt up 0 = true).
  { cbn. destruct (Qle_bool 0 up) eqn:E; [|done].
    apply Qle_bool_iff in E. lra. }
  assert (Edown : nlt down 0 = false).
  { cbn. destruct (Qle_bool 0 down) eqn:E; [done|].
    exfalso. apply not_true_iff_false in E. apply E. by apply Qle_bool_iff. }
  rewrite Eup in H1. rewrite Edown in H2.
  destruct H1 as (S1 & X1 & Y1 & _). destruct H2 as (S2 & X2 & Y2 & _).
  fold pos in S1, X1, Y1, S2, X2, Y2. fold st' in S2, X2, Y2.
  assert (E1 : scale (state (store (onWheel up pos app)))
               == scale (state (store app)) * 1.12).
  { rewrite S1. apply clamp_within. lra. }
  split_and!.
  - rewrite S2. rewrite clamp_within; rewrite E1; lra.
  - by rewrite X2, X1.
  - by rewrite Y2, Y1.
Qed.

Lemma layersFollow_updateTransform {num : Type} `{!Number num}
    (c : CanvasManager num) (s : Store num) :
  layersFollow (mkApp (updateTransform c s) s).
Proof. split; reflexivity. Qed.


(** X8: outside pan mode, or with another mouse button, pressing and moving
    the mouse changes nothing at all, as long as no drag is in progress. *)
Theorem no_pan_outside_pan_mode {num : Type} `{!Number num} (app : App num)
    (button : Z) (pos pos' : option (num * num)) :
  isDragging (state (store app)) = false ->
  mode (state (store app)) = draw \/ button <> 0%Z ->
  onMouseDown button pos app = app
  /\ onMouseMove pos' (onMouseDown button pos app) = app.
Proof.
  intros Hdrag Hwhy.
  assert (Hdown : onMouseDown button pos app = app).
  { unfold onMouseDown. destruct Hwhy as [->|Hb].
    - by rewrite andb_false_r.
    - destruct (Z.eqb_spec button 0); [done|]. done. }
  split; [exact Hdown|].
  rewrite Hdown. unfold onMouseMove. by rewrite Hdrag.
Qed.

(** X9: [fitToContent] forgets the current view: with an image loaded, the
    scale and offset it sets depend on the container and the image only, so
    it gives the same view whatever zooming and panning came before, and
    applying it twice is the same as applying it once. *)
Theorem fitToContent_forgets_view {num : Type} `{!Number num} (app app' : App num)
    (dims : num * num) :
  backgroundImage (canvasManager app) = Some dims ->
  backgroundImage (canvasManager app') = Some dims ->
  clientWidth (canvasManager app') = clientWidth (canvasManager app) ->
  clientHeight (canvasManager app') = clientHeight (canvasManager app) ->
  let view (a : App num) := (scale (state (store a)), offsetX (state (store a)),
                             offsetY (state (store a))) in
  view (fitToContent app') = view (fitToContent app)
  /\ view (fitToContent (fitToContent app)) = view (fitToContent app)
  /\ (forall f, view (fitToContent (zoom f app)) = view (fitToContent app))
  /\ layersFollow (fitToContent app)
  /\ points (store (fitToContent app)) = points (store app).
Proof.
  intros Himg Himg' Hw Hh. cbn zeta.
  assert (Hgen : forall a : App num,
            backgroundImage (canvasManager a) = Some dims ->
            clientWidth (canvasManager a) = clientWidth (canvasManager app) ->
            clientHeight (canvasManager a) = clientHeight (canvasManager app) ->
            (scale (state (store (fitToContent a))),
             offsetX (state (store (fitToContent a))),
             offsetY (state (store (fitToContent a))))
            = (scale (state (store (fitToContent app))),
               offsetX (state (store (fitToContent app))),
               offsetY (state (store (fitToContent app))))).
  { intros a Ha Hwa Hha. unfold fitToContent. rewrite Ha, Himg.
    destruct dims as [iw ih]. cbn. by rewrite Hwa, Hha. }
  split_and!.
  - by apply Hgen.
  - apply Hgen; unfold fitToContent; rewrite Himg; by destruct dims.
  - intros f. by apply Hgen.
  - unfold fitToContent. rewrite Himg. by destruct dims.
  - unfold fitToContent. rewrite Himg. by destruct dims.
Qed.

(** X10: the tooltip is never placed less than 15 pixels from the left or
    the top edge.  When the tooltip with its padding fits in the window
    (width + 30 <= innerWidth) and the pointer is not to the right of the
    window, the tooltip lies entirely within the padded window
    horizontally, and likewise vertically. *)
Theorem positionTooltip_in_window (mouseX mouseY width height innerWidth innerHeight : Q) :
  let left := fst (positionTooltip mouseX mouseY width height innerWidth innerHeight) in
  let top := snd (positionTooltip mouseX mouseY width height innerWidth innerHeight) in
  15 <= left /\ 15 <= top
  /\ (mouseX <= innerWidth -> width + 30 <= innerWidth ->
      left + width <= innerWidth - 15)
  /\ (mouseY <= innerHeight -> height + 30 <= innerHeight ->
      top + height <= innerHeight - 15).
Proof.
  assert (Haxis : forall m w W : Q,
            let l := if nlt (W - 15) (m + 15 + w) then m - w - 15 else m + 15 in
            15 <= Qmax 15 l
            /\ (m <= W -> w + 30 <= W -> Qmax 15 l + w <= W - 15)).
  { intros m w W. cbn -[Qmax Qplus Qminus].
    destruct (Qle_bool (m + 15 + w) (W - 15)) eqn:E; cbn -[Qmax Qplus Qminus].
    - apply Qle_bool_iff in E.
      destruct (Q.max_spec 15 (m + 15)) as [[? ->]|[? ->]]; split; intros; lra.
    - destruct (Q.max_spec 15 (m - w - 15)) as [[? ->]|[? ->]]; split; intros; lra. }
  cbn zeta. unfold positionTooltip. cbn [fst snd nmax lit nadd nsub Number_Q].
  destruct (Haxis mouseX width innerWidth) as [H1 H2].
  destruct (Haxis mouseY height innerHeight) as [H3 H4].
  split_and!; assumption.
Qed.

(** X11: in exact arithmetic, with the scale within 0.1..6, the zoom display
    shows a whole percentage between 10 and 600 that is within half a
    percent of 100 times the scale.  In binary64 the product [scale * 100]
    is rounded before [Math.round] is applied, which can put it on a tie:
    at the double nearest to 0.155 the product is 15.5 and the display
    shows 16%, where the exact product of the same scale rounds to 15. *)
Theorem zoom_display_range (s : Store Q) :
  0.1 <= scale (state s) <= 6 ->
  (exists z : Z,
     updateZoomDisplay s = showZ z +:+ "%"
     /\ (10 <= z <= 600)%Z
     /\ Qabs (inject_Z z - scale (state s) * 100) <= 1 # 2)
  /\ (let nearest : Q := 5584463537939415 # 36028797018963968 in
      lit (num := float) nearest = 0.155%float
      /\ updateZoomDisplay (setScale 0.155%float (newStore None false)) = "16%"
      /\ updateZoomDisplay (setScale nearest (newStore None false)) = "15%").
Proof.
  intros Hs. split; [|cbn zeta; split_and!; reflexivity].
  set (v := scale (state s) * 100 + (1 # 2)).
  exists (Qfloor v).
  pose proof (Qfloor_le v) as Hlo. pose proof (Qlt_floor v) as Hhi.
  rewrite inject_Z_plus in Hhi. change (inject_Z 1) with 1 in Hhi.
  split_and!.
  - unfold updateZoomDisplay. cbn [nround ntext Rounding_Q nmul lit Number_Q].
    unfold mathRound. fold v. by rewrite Qfloor_Z.
  - rewrite <- (Qfloor_Z 10). apply Qfloor_resp_le.
    change (inject_Z 10) with 10. unfold v. lra.
  - change 600%Z with (Qfloor (1201 # 2)). apply Qfloor_resp_le.
    unfold v. lra.
  - apply Qabs_Qle_condition. unfold v in *. split; lra.
Qed.
End Navigation.

(** ** The scene follows the points *)

Section Scene.
Local Open Scope Q_scope.
Implicit Types (c : CanvasManager Q) (s : Store Q) (app : App Q) (p : PointData Q).

Lemma NoDup_map_inj_In {A B : Type} (f : A -> B) (l : list A) (a b : A) :
  NoDup (map f l) -> In a l -> In b l -> f a = f b -> a = b.
Proof.
  induction l as [|x l IH]; simpl; [done|].
  intros Hn Ha Hb Hf. apply NoDup_cons in Hn as [Hx Hn].
  destruct Ha as [->|Ha], Hb as [->|Hb]; try done.
  - exfalso. apply Hx. rewrite Hf. apply list_elem_of_In. by apply in_map.
  - exfalso. apply Hx. rewrite <- Hf. apply list_elem_of_In. by apply in_map.
  - by apply IH.
Qed.

Lemma tidy_ids_unique s :
  StronglySorted Z.lt (rows s) -> placedIds s ->
  forall p q, In p (points s) -> In q (points s) -> Point.id p = Point.id q -> p = q.
Proof.
  intros Hs Hids p q Hp Hq Heq.
  unfold placedIds in Hids. rewrite Forall_forall in Hids.
  destruct (Hids p) as [t Ht]; [by apply list_elem_of_In|].
  destruct (Hids q) as [t' Ht']; [by apply list_elem_of_In|].
  rewrite Ht, Ht' in Heq. apply placedId_row in Heq.
  eapply (NoDup_map_inj_In Point.rowNum); eauto.
  by apply StronglySorted_lt_NoDup.
Qed.

Lemma getPointById_unique s p :
  In p (points s) ->
  (forall q, In q (points s) -> Point.id q = Point.id p -> q = p) ->
  getPointById (Point.id p) s = Some p.
Proof.
  intros Hp Huniq. unfold getPointById.
  destruct (list_find _ _) as [[i q]|] eqn:E.
  - apply list_find_Some in E as (Hq & Hid & _). simpl. f_equal.
    apply Huniq; [|done]. apply list_elem_of_In. by eapply list_elem_of_lookup_2.
  - apply list_find_None in E. rewrite Forall_forall in E.
    exfalso. by apply (E p); [apply list_elem_of_In|].
Qed.

Lemma tidy_same c s s' :
  appTidy (mkApp c s) ->
  points s' = points s -> scale (state s') = scale (state s) ->
  appTidy (mkApp c s').
Proof.
  intros (H1 & H2 & H3 & H4) Hp Hsc.
  unfold appTidy, rows, placedIds, sceneMatches in *. simpl in *.
  rewrite Hp, Hsc. done.
Qed.

Lemma tidy_transform c s s' :
  appTidy (mkApp c s) -> points s' = points s ->
  appTidy (mkApp (updateTransform c s') s').
Proof.
  intros (H1 & H2 & H3 & [H4 H5]) Hp.
  assert (Huniq : forall p q, In p (points s') -> In q (points s') ->
                              Point.id p = Point.id q -> p = q).
  { apply tidy_ids_unique; unfold rows, placedIds in *; simpl in *; by rewrite Hp. }
  unfold appTidy, rows, placedIds, sceneMatches in *. simpl in *.
  rewrite Hp in *. split_and!; try done.
  - intros p Hin. destruct (H4 p Hin) as (m & Hm & Hx & Hy & Hl & _).
    rewrite map_lookup_imap, Hm. simpl.
    rewrite (getPointById_unique s' p).
    + eexists. split; [reflexivity|]. by repeat split.
    + by rewrite Hp.
    + intros q Hq Hid. rewrite Hp in Hq. by apply Huniq.
  - intros id m Hm. rewrite map_lookup_imap in Hm.
    destruct (pointShapes c !! id) as [g|] eqn:E; [|done].
    by apply (H5 id g).
Qed.

Lemma tidy_clear app : appTidy (canvasClearAllPoints app).
Proof.
  unfold appTidy, canvasClearAllPoints, rows, placedIds, sceneMatches. simpl.
  rewrite points_saveToLocal. simpl. split_and!; try by constructor.
  - intros p [].
  - intros id m Hm. by rewrite lookup_empty in Hm.
Qed.

Lemma state_addPoint p s : state (addPoint p s) = state s.
Proof.
  unfold addPoint. destruct (existsb _ _); [done|].
  simpl. by rewrite state_saveToLocal.
Qed.

Lemma tidy_add c s (r now : Z) (x y : Q) :
  appTidy (mkApp c s) -> (1 <= r <= 215)%Z -> hasRowNum r s = false ->
  let point := Point.mk (placedId r now) x y (circleSize (state s)) r in
  appTidy (mkApp (createPointShape point c (addPoint point s)) (addPoint point s)).
Proof.
  intros (H1 & H2 & H3 & [H4 H5]) Hr Hfree point.
  assert (Hnot : ~ In (Point.rowNum point) (rows s)).
  { intros Hin. apply existsb_rowNum in Hin. unfold hasRowNum in Hfree.
    simpl in Hin. congruence. }
  assert (Hperm : points (addPoint point s) ≡ₚ point :: points s).
  { rewrite (points_addPoint_absent _ _ Hnot), sortWith_perm.
    symmetry. apply Permutation_cons_append. }
  assert (Hin : forall q, In q (points (addPoint point s))
                          <-> q = point \/ In q (points s)).
  { intros q. rewrite <- !list_elem_of_In, Hperm, elem_of_cons. done. }
  assert (Hfresh : forall q, In q (points s) -> Point.id q <> Point.id point).
  { intros q Hq Heq. unfold placedIds in H3. rewrite Forall_forall in H3.
    destruct (H3 q) as [t Ht]; [by apply list_elem_of_In|].
    simpl in *. rewrite Ht in Heq. apply placedId_row in Heq.
    apply Hnot. simpl. rewrite <- Heq. by apply in_map. }
  unfold appTidy, placedIds, sceneMatches in *. simpl in *.
  split_and!.
  - by apply addPoint_keeps_ascending.
  - rewrite Hperm. by constructor.
  - rewrite Hperm. constructor; [by exists now | done].
  - intros q Hq. apply Hin in Hq as [->|Hq].
    + eexists. split; [apply lookup_insert_eq|]. by repeat split.
    + rewrite lookup_insert_ne by (apply not_eq_sym; by apply Hfresh).
      rewrite state_addPoint. by apply H4.
  - intros id m Hm. destruct (decide (id = placedId r now)) as [->|Hne].
    + exists point. split; [apply Hin; by left | done].
    + rewrite lookup_insert_ne in Hm by done.
      destruct (H5 id m Hm) as (q & Hq & Hid).
      exists q. split; [apply Hin; by right | done].
Qed.

Lemma In_delete {A : Type} (l : list A) (i : nat) (a : A) :
  In a (delete i l) -> In a l.
Proof.
  revert i. induction l as [|b l IH]; intros i Ha; [by destruct i|].
  destruct i as [|i]; simpl in *; [by right|].
  destruct Ha as [->|Ha]; [by left | right; by eapply IH].
Qed.

Lemma StronglySorted_map_delete {A : Type} (f : A -> Z) (l : list A) (i : nat) :
  StronglySorted Z.lt (map f l) -> StronglySorted Z.lt (map f (delete i l)).
Proof.
  revert i. induction l as [|a l IH]; intros i Hs; [by destruct i|].
  simpl in Hs. apply StronglySorted_inv in Hs as [Hl Ha].
  destruct i as [|i]; simpl; [done|].
  constructor; [by apply IH|].
  rewrite Forall_forall in Ha |- *. intros z Hz. apply Ha.
  apply list_elem_of_In, in_map_iff in Hz as (b & <- & Hb).
  apply list_elem_of_In, in_map. by eapply In_delete.
Qed.

Lemma tidy_remove (id : string) app :
  appTidy app -> appTidy (snd (removePointById id app)).
Proof.
  destruct app as [c s]. intros Htidy. pose proof Htidy as (H1 & H2 & H3 & [H4 H5]).
  unfold removePointById, removePoint. simpl in *.
  destruct (list_find _ _) as [[i removed]|] eqn:E; [|done].
  apply list_find_Some in E as (Hi & Hid & _). cbn [snd fst].
  set (s2 := if decide _ then _ else _).
  assert (Hpts : points (notify (saveToLocal s2)) = delete i (points s)).
  { rewrite points_notify, points_saveToLocal. unfold s2. by case_decide. }
  assert (Hsc : scale (state (notify (saveToLocal s2))) = scale (state s)).
  { simpl. rewrite state_saveToLocal. unfold s2. by case_decide. }
  assert (Huniq := tidy_ids_unique s H1 H3).
  assert (Hnd : NoDup (points s)).
  { apply NoDup_ListNoDup, (NoDup_map_inv Point.rowNum), NoDup_ListNoDup.
    by apply StronglySorted_lt_NoDup. }
  assert (Hsplit : points s = take i (points s) ++ removed :: drop (S i) (points s))
    by (symmetry; by apply take_drop_middle).
  assert (Hrem : In removed (points s)).
  { apply list_elem_of_In. by eapply list_elem_of_lookup_2. }
  assert (Hin : forall q, In q (delete i (points s))
                          <-> In q (points s) /\ q <> removed).
  { intros q. rewrite delete_take_drop. split.
    - intros Hq. split.
      + rewrite Hsplit. apply in_app_iff. apply in_app_iff in Hq as [Hq|Hq];
          [by left | right; by right].
      + intros ->. rewrite Hsplit in Hnd. apply NoDup_ListNoDup in Hnd.
        by apply NoDup_remove_2 in Hnd.
    - intros [Hq Hne]. rewrite Hsplit in Hq.
      apply in_app_iff in Hq as [Hq|[Hq|Hq]]; apply in_app_iff;
        [by left | congruence | by right]. }
  set (s' := notify (saveToLocal s2)) in *. clearbody s'.
  unfold appTidy, rows, placedIds, sceneMatches. simpl.
  rewrite Hpts, Hsc. split_and!.
  - by apply StronglySorted_map_delete.
  - by apply Forall_delete.
  - by apply Forall_delete.
  - intros q Hq. apply Hin in Hq as [Hq Hne].
    rewrite lookup_delete_ne; [by apply H4|].
    intros Heq. apply Hne. apply Huniq; try done. congruence.
  - intros id' m Hm. destruct (decide (id' = id)) as [->|Hne].
    + by rewrite lookup_delete_eq in Hm.
    + rewrite lookup_delete_ne in Hm by done.
      destruct (H5 id' m Hm) as (q & Hq & Hqid).
      exists q. split; [|done]. apply Hin. split; [done|]. intros ->. congruence.
Qed.
End Scene.

(** ** Properties kept by every handler *)

Section HandlerClosure.
Local Open Scope Q_scope.
Implicit Types (c : CanvasManager Q) (s : Store Q) (app : App Q) (pg : Page).

(** A property of the application that survives a change of the store which
    keeps the points and the view, a re-transform of the canvas after a
    change of view, a placement on a free row of 1..215, a removal and a
    clearing is kept by every handler that does not import. *)
Variable P : App Q -> Prop.

Hypothesis keeps_same :
  forall c s s', P (mkApp c s) -> points s' = points s ->
    scale (state s') = scale (state s) -> offsetX (state s') = offsetX (state s) ->
    offsetY (state s') = offsetY (state s) -> P (mkApp c s').

Hypothesis keeps_transform :
  forall c s s', P (mkApp c s) -> points s' = points s ->
    0.1 <= scale (state s') <= 6 \/ scale (state s') = scale (state s) ->
    P (mkApp (updateTransform c s') s').

Hypothesis keeps_placed :
  forall c s (r now : Z) (x y : Q),
    P (mkApp c s) -> (1 <= r <= 215)%Z -> hasRowNum r s = false ->
    let point := Point.mk (placedId r now) x y (circleSize (state s)) r in
    P (mkApp (createPointShape point c (addPoint point s)) (addPoint point s)).

Hypothesis keeps_removed :
  forall id app, P app -> P (snd (removePointById id app)).

Hypothesis keeps_cleared : forall app, P app -> P (canvasClearAllPoints app).

Local Set Default Proof Using "All".

Lemma closure_zoom (f : Q) app : P app -> P (zoom f app).
Proof.
  destruct app as [c s]. intros HP. unfold zoom. cbn zeta.
  eapply keeps_transform; [exact HP | reflexivity |].
  left. apply (clamp_bounds 0.1 6). lra.
Qed.

Lemma closure_onWheel (deltaY : Q) (pos : option (Q * Q)) app :
  P app -> P (onWheel deltaY pos app).
Proof.
  destruct app as [c s]. intros HP. unfold onWheel.
  destruct pos as [[px py]|]; [|done]. cbn zeta.
  eapply keeps_transform; [exact HP | reflexivity |].
  left. apply (clamp_bounds 0.1 6). lra.
Qed.

Lemma closure_fitToContent app : P app -> P (fitToContent app).
Proof.
  destruct app as [c s]. intros HP. unfold fitToContent.
  destruct (backgroundImage _) as [[iw ih]|]; [|done]. cbn zeta.
  eapply keeps_transform; [exact HP | reflexivity |].
  left. apply (clamp_bounds 0.1 6). lra.
Qed.

Lemma closure_onMouseDown (button : Z) (pos : option (Q * Q)) app :
  P app -> P (onMouseDown button pos app).
Proof.
  destruct app as [c s]. intros HP. unfold onMouseDown.
  destruct (_ && _); [|done]. destruct pos as [[px py]|]; [|done].
  by eapply keeps_same.
Qed.

Lemma closure_onMouseMove (pos : option (Q * Q)) app :
  P app -> P (onMouseMove pos app).
Proof.
  destruct app as [c s]. intros HP. unfold onMouseMove.
  destruct (_ && _); [|done]. destruct pos as [[px py]|]; [|done]. cbn zeta.
  eapply keeps_transform; [exact HP | reflexivity | by right].
Qed.

Lemma closure_onMouseUp app : P app -> P (onMouseUp app).
Proof. destruct app as [c s]. intros HP. by eapply keeps_same. Qed.

Lemma closure_setMode (m : Mode) app : P app -> P (canvasSetMode m app).
Proof. destruct app as [c s]. intros HP. by eapply keeps_same. Qed.

Lemma closure_selected (sel : option string) app :
  P app -> P (mkApp (canvasManager app) (setSelectedPointId sel (store app))).
Proof. destruct app as [c s]. intros HP. by eapply keeps_same. Qed.

Lemma closure_setCircleSize (size : Q) app :
  P app -> P (mkApp (canvasManager app) (setCircleSize size (store app))).
Proof. destruct app as [c s]. intros HP. by eapply keeps_same. Qed.

Lemma closure_addPointAtPosition (now : Z) (x y : Q) pg :
  P (pageApp pg) -> P (pageApp (addPointAtPosition now x y pg)).
Proof.
  destruct pg as [[c s] n t]. intros HP. unfold addPointAtPosition. cbn zeta.
  cbn [pageApp nextRowInput store canvasManager].
  destruct (Z.ltb_spec n 1); [done|]. destruct (Z.ltb_spec 215 n); [done|].
  cbn [orb]. destruct (hasRowNum n s) eqn:E; [done|].
  cbn [pageApp]. apply keeps_placed; [done | lia | done].
Qed.

Lemma closure_onContextMenu (id : string) pg :
  P (pageApp pg) -> P (pageApp (onContextMenu id pg)).
Proof.
  intros HP. unfold onContextMenu.
  pose proof (keeps_removed id _ HP) as Hrem.
  by destruct (removePointById id (pageApp pg)) as [[row|] app'].
Qed.

Lemma closure_onDeleteButton (id : string) pg :
  P (pageApp pg) -> P (pageApp (onDeleteButton id pg)).
Proof.
  intros HP. unfold onDeleteButton. case_decide; [done|].
  by apply closure_onContextMenu.
Qed.

Lemma closure_onClearAll (confirmed : bool) pg :
  P (pageApp pg) -> P (pageApp (onClearAll confirmed pg)).
Proof.
  intros HP. unfold onClearAll.
  destruct (points _); [done|]. destruct confirmed; [|done].
  by apply keeps_cleared.
Qed.

Lemma closure_handleKeyDown (inInput : bool) (key : string) pg :
  P (pageApp pg) -> P (pageApp (handleKeyDown inInput key pg)).
Proof.
  intros HP. unfold handleKeyDown. destruct inInput; [done|]. cbn zeta.
  repeat case_decide; cbn [pageApp];
    auto using closure_setMode, closure_fitToContent, closure_zoom, closure_selected.
  destruct (selectedPointId _) as [sel|]; [|done].
  case_decide; [done|]. by apply closure_onDeleteButton.
Qed.

Lemma closure_handle (ev : Event) pg :
  (isImport ev ->
   forall env data app, P app -> P (handleJSONImport env (ParsedArray data) true app)) ->
  P (pageApp pg) -> P (pageApp (handle ev pg)).
Proof.
  intros Himport HP.
  destruct ev as [now target pos|id|id|confirmed|env file confirmed|inInput key
                 |value|deltaY pos|button pos|pos| | | | |m|size]; cbn [handle pageApp].
  - unfold onClick. destruct target as [| |id].
    + destruct (isPan _); [done|]. destruct pos as [[px py]|]; [|done].
      by apply closure_addPointAtPosition.
    + destruct (isPan _); [done|]. destruct pos as [[px py]|]; [|done].
      by apply closure_addPointAtPosition.
    + by apply closure_selected.
  - by apply closure_onContextMenu.
  - by apply closure_onDeleteButton.
  - by apply closure_onClearAll.
  - unfold onImportFile. destruct file as [| |data]; try done.
    destruct confirmed; [|done]. by apply (Himport I).
  - by apply closure_handleKeyDown.
  - done.
  - by apply closure_onWheel.
  - by apply closure_onMouseDown.
  - by apply closure_onMouseMove.
  - by apply closure_onMouseUp.
  - by apply closure_zoom.
  - by apply closure_zoom.
  - by apply closure_fitToContent.
  - by apply closure_setMode.
  - by apply closure_setCircleSize.
Qed.

Lemma closure_handleAll (evs : list Event) pg :
  Forall (fun ev => isImport ev ->
            forall env data app, P app ->
              P (handleJSONImport env (ParsedArray data) true app)) evs ->
  P (pageApp pg) -> P (pageApp (handleAll evs pg)).
Proof.
  intros Hevs. revert pg. induction Hevs as [|ev evs Hev _ IH]; intros pg HP; [done|].
  simpl. apply IH. by apply closure_handle.
Qed.
End HandlerClosure.

(** ** Sessions *)

Section Sessions.
Local Open Scope Q_scope.
Implicit Types (c : CanvasManager Q) (s : Store Q) (app : App Q) (pg : Page).

Lemma sound_same c s s' :
  appSound (mkApp c s) -> points s' = points s ->
  scale (state s') = scale (state s) -> offsetX (state s') = offsetX (state s) ->
  offsetY (state s') = offsetY (state s) -> appSound (mkApp c s').
Proof.
  intros (H1 & H2 & H3) Hp Hsc Hx Hy.
  unfold appSound, layersFollow in *. simpl in *. rewrite Hp, Hsc, Hx, Hy. done.
Qed.

Lemma sound_transform c s s' :
  appSound (mkApp c s) -> points s' = points s ->
  0.1 <= scale (state s') <= 6 \/ scale (state s') = scale (state s) ->
  appSound (mkApp (updateTransform c s') s').
Proof.
  intros (H1 & H2 & H3) Hp Hsc. unfold appSound. simpl in *. split_and!.
  - by rewrite Hp.
  - destruct Hsc as [Hsc|Hsc]; [lra | rewrite Hsc; lra].
  - destruct Hsc as [Hsc|Hsc]; [lra | rewrite Hsc; lra].
  - apply layersFollow_updateTransform.
Qed.

Lemma sound_placed c s (r now : Z) (x y : Q) :
  appSound (mkApp c s) -> (1 <= r <= 215)%Z -> hasRowNum r s = false ->
  let point := Point.mk (placedId r now) x y (circleSize (state s)) r in
  appSound (mkApp (createPointShape point c (addPoint point s)) (addPoint point s)).
Proof.
  intros (H1 & H2 & H3) Hr Hfree point.
  assert (Hnot : ~ In (Point.rowNum point) (rows s)).
  { intros Hin. apply existsb_rowNum in Hin. unfold hasRowNum in Hfree.
    simpl in Hin. congruence. }
  unfold appSound, layersFollow in *. simpl in *.
  rewrite state_addPoint, (points_addPoint_absent point s Hnot), sortWith_perm.
  destruct H3 as [H3 H4]. split_and!; try done; try lra.
  apply Forall_app. split; [done|]. by constructor.
Qed.

Lemma sound_removed (id : string) app :
  appSound app -> appSound (snd (removePointById id app)).
Proof.
  destruct app as [c s]. intros (H1 & [H2 H2'] & [H3 H3']).
  unfold removePointById, removePoint. simpl in *.
  destruct (list_find _ _) as [[i removed]|]; [|done]. cbn [snd].
  unfold appSound, layersFollow in *. simpl.
  rewrite points_saveToLocal, state_saveToLocal.
  case_decide; simpl; (split_and!; [by apply Forall_delete | done..]).
Qed.

Lemma sound_cleared app : appSound app -> appSound (canvasClearAllPoints app).
Proof.
  destruct app as [c s]. intros (H1 & [H2 H2'] & [H3 H3']).
  unfold appSound, layersFollow, canvasClearAllPoints in *. simpl in *.
  rewrite points_saveToLocal, state_saveToLocal. simpl.
  split_and!; [constructor | done..].
Qed.

Lemma renderAllPoints_layers {num : Type} `{!Number num}
    (cm : CanvasManager num) (st : Store num) :
  imageLayer (renderAllPoints cm st) = imageLayer cm
  /\ pointsLayer (renderAllPoints cm st) = pointsLayer cm.
Proof.
  unfold renderAllPoints.
  assert (Hgen : forall (l : list (PointData num)) (cm0 : CanvasManager num),
            let cm1 := fold_left (fun (acc : CanvasManager num) point =>
                                    createPointShape point acc st) l cm0 in
            imageLayer cm1 = imageLayer cm0 /\ pointsLayer cm1 = pointsLayer cm0).
  { induction l as [|q l IH]; intros cm0; [done|]. simpl.
    destruct (IH (createPointShape q cm0 st)) as [-> ->]. done. }
  destruct (Hgen (points st) (set_pointShapes ∅ cm)) as [-> ->]. done.
Qed.

Lemma sound_imported (env : Entropy) (data : list (Item.t Q)) app :
  appSound app -> appSound (handleJSONImport env (ParsedArray data) true app).
Proof.
  destruct app as [c s]. intros (H1 & [H2 H2'] & [H3 H3']).
  unfold handleJSONImport. cbn [store canvasManager].
  set (s' := importPoints env (map normalizeItem data) s).
  assert (Hst : state s' = state s).
  { unfold s', importPoints. cbn zeta. simpl. by rewrite state_saveToLocal. }
  assert (Hrange : Forall inRange (points s')).
  { unfold s'. rewrite points_importPoints, sortWith_perm.
    apply importedFrom_inRange. }
  destruct (renderAllPoints_layers c s') as [Hi Hp]. clearbody s'.
  unfold appSound, layersFollow in *. simpl in *.
  rewrite Hi, Hp, Hst. split_and!; done.
Qed.

Lemma renderAllPoints_image {num : Type} `{!Number num}
    (cm : CanvasManager num) (st : Store num) :
  backgroundImage (renderAllPoints cm st) = backgroundImage cm.
Proof.
  unfold renderAllPoints.
  assert (Hgen : forall (l : list (PointData num)) (cm0 : CanvasManager num),
            backgroundImage (fold_left (fun (acc : CanvasManager num) point =>
                                          createPointShape point acc st) l cm0)
            = backgroundImage cm0).
  { induction l as [|q l IH]; intros cm0; [done|]. simpl. by rewrite IH. }
  by rewrite Hgen.
Qed.

(** No handler changes the background image. *)
Lemma image_handleAll (evs : list Event) pg :
  backgroundImage (canvasManager (pageApp (handleAll evs pg)))
  = backgroundImage (canvasManager (pageApp pg)).
Proof.
  set (img := backgroundImage (canvasManager (pageApp pg))).
  apply (closure_handleAll (fun app => backgroundImage (canvasManager app) = img));
    try done.
  - intros id [c s] Himg. unfold removePointById.
    by destruct (removePoint id (store (mkApp c s))) as [[removed|] s'].
  - apply Forall_forall. intros ev _ _ env data [c s] Himg.
    unfold handleJSONImport. cbn [store canvasManager].
    by rewrite renderAllPoints_image.
Qed.

(** X12: in exact arithmetic, and with a row field that [parseInt] reads as
    an integer whenever it is edited, however the page is driven (clicks,
    removals, clearing, imports, keys, wheel, drags, buttons, the size
    slider, edits of the row field), starting from an application whose
    points have rows in 1..215, whose scale is within 0.1..6, whose layers
    carry the store's view and whose image, if any, has a positive width
    and height, these four facts keep holding. *)
Theorem session_stays_sound (evs : list Event) (pg0 : Page) :
  pageSound pg0 ->
  let app := pageApp (handleAll evs pg0) in
  Forall inRange (points (store app))
  /\ 0.1 <= scale (state (store app)) <= 6
  /\ layersFollow app
  /\ imageHasSize app
  /\ backgroundImage (canvasManager app) = backgroundImage (canvasManager (pageApp pg0)).
Proof.
  intros [Hsound Himg]. cbn zeta.
  assert (Hinv : appSound (pageApp (handleAll evs pg0))).
  { apply (closure_handleAll appSound sound_same sound_transform sound_placed
             sound_removed sound_cleared); [|exact Hsound].
    apply Forall_forall. intros ev _ _ env data app. apply sound_imported. }
  destruct Hinv as (H1 & H2 & H3). split_and!; try done; try lra.
  - unfold imageHasSize. by rewrite image_handleAll.
  - apply image_handleAll.
Qed.

Lemma NoDup_map_on {A B : Type} (f : A -> B) (l : list A) :
  (forall a b, In a l -> In b l -> f a = f b -> a = b) ->
  NoDup l -> NoDup (map f l).
Proof.
  induction l as [|x l IH]; intros Hinj Hn; simpl; [constructor|].
  apply NoDup_cons in Hn as [Hx Hn]. apply NoDup_cons. split.
  - intros Hin. apply list_elem_of_In, in_map_iff in Hin as (y & Hf & Hy).
    apply Hx. rewrite (Hinj x y); [by apply list_elem_of_In | by left | by right | done].
  - apply IH; [|done]. intros a b Ha Hb. apply Hinj; by right.
Qed.

Lemma rows_at_most_215 (l : list Z) :
  NoDup l -> Forall (fun r => 1 <= r <= 215)%Z l -> (length l <= 215)%nat.
Proof.
  intros Hn Hr.
  change 215%nat with (length (map Z.of_nat (seq 1 215))).
  apply NoDup_incl_length; [by apply NoDup_ListNoDup|].
  intros r Hin. rewrite Forall_forall in Hr.
  specialize (Hr r (proj2 (list_elem_of_In _ _) Hin)).
  apply in_map_iff. exists (Z.to_nat r). split; [lia|]. apply in_seq. lia.
Qed.

(** X13: as long as nothing is imported and the row field, whenever it is
    edited, holds a text that [parseInt] reads as an integer, a session that
    starts tidy (an empty page, say) stays tidy whatever the events: the
    rows are strictly ascending, so no two points share a row; they lie in
    1..215; there are at most 215 points; no two points share an id; and
    the markers are exactly those of the points, each at its point's
    coordinates, labelled with its row and sized for the current scale. *)
Theorem session_stays_tidy (evs : list Event) (pg0 : Page) :
  pageTidy pg0 ->
  Forall (fun ev => ~ isImport ev) evs ->
  let app := pageApp (handleAll evs pg0) in
  pageTidy (handleAll evs pg0)
  /\ StronglySorted Z.lt (rows (store app))
  /\ Forall inRange (points (store app))
  /\ (length (points (store app)) <= 215)%nat
  /\ NoDup (map Point.id (points (store app)))
  /\ sceneMatches app.
Proof.
  intros Htidy Hevs. cbn zeta.
  assert (Hinv : appTidy (pageApp (handleAll evs pg0))).
  { apply (closure_handleAll appTidy).
    - intros c s s' H Hp Hsc _ _. by eapply tidy_same.
    - intros c s s' H Hp _. by eapply tidy_transform.
    - apply tidy_add.
    - apply tidy_remove.
    - intros app _. apply tidy_clear.
    - eapply Forall_impl; [exact Hevs|]. simpl. intros ev Hno Hyes. by destruct Hno.
    - exact Htidy. }
  split; [exact Hinv|]. pose proof Hinv as (H1 & H2 & H3 & H4).
  pose proof (StronglySorted_lt_NoDup _ H1) as Hnd.
  split_and!; try done.
  - unfold rows in Hnd. rewrite <- (length_map Point.rowNum).
    apply rows_at_most_215; [done|].
    apply Forall_forall. intros r Hr.
    apply list_elem_of_In, in_map_iff in Hr as (p & <- & Hp).
    rewrite Forall_forall in H2. apply H2. by apply list_elem_of_In.
  - apply NoDup_map_on.
    + intros p q Hp Hq Heq. by apply (tidy_ids_unique _ H1 H3).
    + apply NoDup_ListNoDup, (NoDup_map_inv Point.rowNum). by apply NoDup_ListNoDup.
Qed.
End Sessions.

(** ** Placing points *)

Section Placement.
Local Open Scope Q_scope.
Implicit Types (app : App Q) (pg : Page).

Lemma mathRound_near (v : Q) : Qabs (mathRound v - v) <= 1 # 2.
Proof.
  unfold mathRound.
  pose proof (Qfloor_le (v + (1 # 2))) as Hlo.
  pose proof (Qlt_floor (v + (1 # 2))) as Hhi.
  rewrite inject_Z_plus in Hhi. change (inject_Z 1) with 1 in Hhi.
  apply Qabs_Qle_condition. split; lra.
Qed.

Lemma screen_of_rounded (pos off sc : Q) :
  0 < sc ->
  Qabs (mathRound ((pos - off) / sc) * sc + off - pos) <= sc / 2.
Proof.
  intros Hsc.
  assert (E : mathRound ((pos - off) / sc) * sc + off - pos
              == (mathRound ((pos - off) / sc) - (pos - off) / sc) * sc)
    by (field; lra).
  rewrite E. clear E.
  pose proof (mathRound_near ((pos - off) / sc)) as Hnear.
  apply Qabs_Qle_condition in Hnear as [Hlo Hhi].
  set (d := mathRound ((pos - off) / sc) - (pos - off) / sc) in *. clearbody d.
  assert (Hup : d * sc <= (1 # 2) * sc) by (apply Qmult_le_compat_r; lra).
  assert (Hdown : - (1 # 2) * sc <= d * sc) by (apply Qmult_le_compat_r; lra).
  assert (Ehalf : sc / 2 == (1 # 2) * sc) by field.
  apply Qabs_Qle_condition. rewrite Ehalf. split; lra.
Qed.

(** X14: a click on the background in draw mode, with the row field showing
    a free row of 1..215, places exactly one point: it has that row, the id
    built from the row and the time, the current circle size, and the
    rounded image-space position of the pointer, so that on screen its
    marker's centre is within half the scale of the pointer on each axis;
    its marker is created, the row field moves on to the next free row and
    the toast reports the placement. *)
Theorem click_places_point_under_pointer (now : Z) (posX posY : Q) (pg : Page) :
  let app := pageApp pg in
  let st := state (store app) in
  let r := nextRowInput pg in
  mode st = draw -> layersFollow app -> 0 < scale st ->
  (1 <= r <= 215)%Z -> ~ In r (rows (store app)) ->
  let pg' := onClick now OnBackground (Some (posX, posY)) pg in
  let point := Point.mk (placedId r now)
                        (mathRound ((posX - offsetX st) / scale st))
                        (mathRound ((posY - offsetY st) / scale st))
                        (circleSize st) r in
  points (store (pageApp pg')) ≡ₚ point :: points (store app)
  /\ Qabs (Point.x point * scale st + offsetX st - posX) <= scale st / 2
  /\ Qabs (Point.y point * scale st + offsetY st - posY) <= scale st / 2
  /\ (exists m, pointShapes (canvasManager (pageApp pg')) !! Point.id point = Some m
                /\ markerOf m point (scale st))
  /\ nextRowInput pg' = getNextAvailableRow (store (pageApp pg'))
  /\ toast pg' = Some (mkToast ("Circle " +:+ showZ r +:+ " added") false).
Proof.
  destruct pg as [[c s] r t]. cbn [pageApp nextRowInput store canvasManager].
  intros Hmode [Hlayer _] Hsc Hr Hfree. cbn zeta.
  unfold onClick. cbn [pageApp store canvasManager]. rewrite Hmode. cbn [isPan].
  simpl in Hlayer. rewrite Hlayer. cbn [layerX layerY layerScale].
  unfold addPointAtPosition. cbn [pageApp nextRowInput store canvasManager].
  destruct (Z.ltb_spec r 1); [lia|]. destruct (Z.ltb_spec 215 r); [lia|].
  cbn [orb].
  assert (Hhas : hasRowNum r s = false).
  { unfold hasRowNum. destruct (existsb _ _) eqn:E; [|done].
    apply existsb_rowNum in E. done. }
  rewrite Hhas. cbn [pageApp nextRowInput toast store canvasManager].
  set (point := Point.mk _ _ _ _ _).
  split_and!.
  - rewrite (points_addPoint_absent point s Hfree), sortWith_perm.
    symmetry. apply Permutation_cons_append.
  - by apply screen_of_rounded.
  - by apply screen_of_rounded.
  - eexists. split; [apply createPointShape_lookup|].
    rewrite state_addPoint. by repeat split.
  - reflexivity.
  - reflexivity.
Qed.

(** X15: a click that is turned down changes neither the store nor the
    canvas.  With the row field reading an integer outside 1..215 the toast
    is the error "Row must be between 1 and 215"; with the integer of a row
    already in use it is the error "Circle n already exists!"; in pan mode,
    or without a pointer position, the click is ignored altogether.  With
    the row field reading NaN the click is not turned down: neither guard
    holds, the point is stored with the row NaN and the toast is "Circle
    NaN added". *)
Theorem rejected_click_changes_nothing (now : Z) (target : ClickTarget)
    (pos : Q * Q) (pg : Page) :
  (forall id, target <> OnMarker id) ->
  let r := nextRowInput pg in
  let pg' := onClick now target (Some pos) pg in
  (mode (state (store (pageApp pg))) = pan -> pg' = pg)
  /\ (onClick now target None pg = pg)
  /\ (mode (state (store (pageApp pg))) = draw -> ~ (1 <= r <= 215)%Z ->
      pg' = mkPage (pageApp pg) r (Some (mkToast "Row must be between 1 and 215" true)))
  /\ (mode (state (store (pageApp pg))) = draw -> (1 <= r <= 215)%Z ->
      In r (rows (store (pageApp pg))) ->
      pg' = mkPage (pageApp pg) r
              (Some (mkToast ("Circle " +:+ showZ r +:+ " already exists!") true)))
  /\ (forall (x y : Q) (s : Parsed.Store Q),
        let point := Parsed.mkPoint ("c_NaN_" +:+ showZ now) (mathRound x)
                                    (mathRound y) (Parsed.circleSize s) Parsed.NaN in
        Parsed.addPointAtPosition now x y Parsed.NaN s
        = (Parsed.addPoint point s, mkToast "Circle NaN added" false)
        /\ Parsed.points (Parsed.addPoint point s) ≡ₚ point :: Parsed.points s
        /\ Parsed.notified (Parsed.addPoint point s) = S (Parsed.notified s)).
Proof.
  intros Htarget. destruct pg as [app r t]. destruct pos as [px py]. cbn zeta.
  cbn [pageApp nextRowInput].
  assert (Hclick : forall p,
            onClick now target p (mkPage app r t)
            = if isPan (mode (state (store app))) then mkPage app r t
              else match p with
                   | None => mkPage app r t
                   | Some (posX, posY) =>
                       addPointAtPosition now
                         ((posX - layerX (imageLayer (canvasManager app)))
                          / layerScale (imageLayer (canvasManager app)))
                         ((posY - layerY (imageLayer (canvasManager app)))
                          / layerScale (imageLayer (canvasManager app)))
                         (mkPage app r t)
                   end).
  { intros p. destruct target as [| |id]; try done. by destruct (Htarget id). }
  rewrite !Hclick. split_and!.
  - by intros ->.
  - by destruct (isPan _).
  - intros -> Hout. cbn [isPan]. unfold addPointAtPosition.
    cbn [pageApp nextRowInput].
    destruct (Z.ltb_spec r 1); [done|]. destruct (Z.ltb_spec 215 r); [done|]. lia.
  - intros -> Hin Hused. cbn [isPan]. unfold addPointAtPosition.
    cbn [pageApp nextRowInput].
    destruct (Z.ltb_spec r 1); [lia|]. destruct (Z.ltb_spec 215 r); [lia|].
    cbn [orb]. unfold hasRowNum.
    apply existsb_rowNum in Hused. by rewrite Hused.
  - intros x y s. split; [exact (addPointAtPosition_NaN now x y s)|].
    set (point := Parsed.mkPoint _ _ _ _ _).
    by destruct (addPoint_NaN point s eq_refl) as (H1 & H2 & _).
Qed.

Lemma In_first_rows (k : nat) (j : Z) :
  In j (map Z.of_nat (seq 1 k)) <-> (1 <= j <= Z.of_nat k)%Z.
Proof.
  rewrite in_map_iff. split.
  - intros (n & <- & Hn). apply in_seq in Hn. lia.
  - intros Hj. exists (Z.to_nat j). split; [lia|]. apply in_seq. lia.
Qed.

Lemma first_rows_sorted (k a : nat) :
  StronglySorted Z.le (map Z.of_nat (seq a k)).
Proof.
  revert a. induction k as [|k IH]; intros a; simpl; constructor; [apply IH|].
  apply Forall_forall. intros z Hz.
  apply list_elem_of_In, in_map_iff in Hz as (n & <- & Hn).
  apply in_seq in Hn. lia.
Qed.

Lemma next_of_first_rows (s : Store Q) (k : nat) :
  rows s = map Z.of_nat (seq 1 k) -> (k <= 215)%nat ->
  getNextAvailableRow s = Z.min (Z.of_nat k + 1) 215.
Proof.
  intros Hrows Hk.
  destruct (nextRow_cases s) as [(Hnot & Hr & Hsmall)|[Hr Hall]].
  - rewrite Hrows in Hnot. rewrite In_first_rows in Hnot.
    destruct (Z.lt_ge_cases (Z.of_nat k + 1) (getNextAvailableRow s)) as [Hlt|Hge];
      [|lia].
    exfalso. specialize (Hsmall (Z.of_nat k + 1)%Z ltac:(lia)).
    rewrite Hrows in Hsmall. apply In_first_rows in Hsmall. lia.
  - specialize (Hall 215%Z ltac:(lia)).
    rewrite Hrows in Hall. apply In_first_rows in Hall. lia.
Qed.

Lemma click_extends_first_rows (now : Z) (x y : Q) (pg : Page) (k : nat) :
  rows (store (pageApp pg)) = map Z.of_nat (seq 1 k) ->
  nextRowInput pg = Z.min (Z.of_nat k + 1) 215 -> (k < 215)%nat ->
  let pg' := addPointAtPosition now x y pg in
  mode (state (store (pageApp pg'))) = mode (state (store (pageApp pg)))
  /\ rows (store (pageApp pg')) = map Z.of_nat (seq 1 (S k))
  /\ nextRowInput pg' = Z.min (Z.of_nat (S k) + 1) 215.
Proof.
  destruct pg as [[c s] r t]. cbn [pageApp nextRowInput store].
  intros Hrows -> Hk. cbn zeta. unfold addPointAtPosition.
  cbn [pageApp nextRowInput store canvasManager].
  rewrite Z.min_l by lia.
  destruct (Z.ltb_spec (Z.of_nat k + 1) 1); [lia|].
  destruct (Z.ltb_spec 215 (Z.of_nat k + 1)); [lia|]. cbn [orb].
  assert (Hfree : ~ In (Z.of_nat k + 1)%Z (rows s)).
  { rewrite Hrows, In_first_rows. lia. }
  assert (Hhas : hasRowNum (Z.of_nat k + 1) s = false).
  { unfold hasRowNum. destruct (existsb _ _) eqn:E; [|done].
    apply existsb_rowNum in E. done. }
  rewrite Hhas. cbn [pageApp nextRowInput store canvasManager].
  set (point := Point.mk _ _ _ _ _).
  assert (Hrows' : rows (addPoint point s) = map Z.of_nat (seq 1 (S k))).
  { unfold rows. rewrite (points_addPoint_absent point s Hfree). unfold byRowNum.
    assert (Hmap : map Point.rowNum (points s ++ [point]) = map Z.of_nat (seq 1 (S k))).
    { rewrite map_app, seq_S, map_app. unfold rows in Hrows. rewrite Hrows.
      simpl. do 2 f_equal. lia. }
    rewrite (sortWith_id Point.rowNum); [done|].
    rewrite Hmap. apply first_rows_sorted. }
  split_and!.
  - by rewrite state_addPoint.
  - exact Hrows'.
  - apply next_of_first_rows; [done | lia].
Qed.

Lemma clicks_extend_first_rows (clicks : list (Z * (Q * Q))) (pg : Page) (k : nat) :
  mode (state (store (pageApp pg))) = draw ->
  rows (store (pageApp pg)) = map Z.of_nat (seq 1 k) ->
  nextRowInput pg = Z.min (Z.of_nat k + 1) 215 ->
  (k + length clicks <= 215)%nat ->
  let pg' := handleAll (backgroundClicks clicks) pg in
  mode (state (store (pageApp pg'))) = draw
  /\ rows (store (pageApp pg')) = map Z.of_nat (seq 1 (k + length clicks))
  /\ nextRowInput pg' = Z.min (Z.of_nat (k + length clicks) + 1) 215.
Proof.
  revert pg k. induction clicks as [|[now [px py]] clicks IH];
    intros pg k Hmode Hrows Hnext Hlen; cbn zeta.
  - simpl. rewrite Nat.add_0_r. done.
  - simpl in Hlen. cbn [backgroundClicks map handleAll fold_left handle fst snd].
    unfold onClick. rewrite Hmode. cbn [isPan].
    edestruct (click_extends_first_rows now) as (Hm & Hr & Hn);
      [exact Hrows | exact Hnext | lia |].
    replace (k + length ((now, (px, py)) :: clicks))%nat
      with (S k + length clicks)%nat by (simpl; lia).
    apply (IH _ (S k)); [by rewrite Hm | exact Hr | exact Hn | lia].
Qed.

(** X16: clicking the empty background of a fresh page in draw mode, without
    touching the row field, fills the rows in order: after n clicks
    (n <= 215), wherever and whenever they land, the points are on rows
    1, 2, ..., n and the row field shows n + 1, or 215 once all rows are
    taken; a 216th click is refused with "Circle 215 already exists!" and
    changes neither store nor canvas. *)
Theorem clicks_fill_rows_in_order (clicks : list (Z * (Q * Q))) (width height : Q) :
  (length clicks <= 215)%nat ->
  let n := length clicks in
  let pg := handleAll (backgroundClicks clicks) (freshPage width height) in
  rows (store (pageApp pg)) = map Z.of_nat (seq 1 n)
  /\ nextRowInput pg = Z.min (Z.of_nat n + 1) 215
  /\ (n = 215%nat ->
      forall now pos,
        let pg' := handle (Click now OnBackground (Some pos)) pg in
        pageApp pg' = pageApp pg
        /\ toast pg' = Some (mkToast "Circle 215 already exists!" true)).
Proof.
  intros Hlen. cbn zeta.
  destruct (clicks_extend_first_rows clicks (freshPage width height) 0)
    as (Hmode & Hrows & Hnext); [reflexivity | reflexivity | reflexivity | lia |].
  simpl in Hrows, Hnext. split_and!; [exact Hrows | exact Hnext |].
  intros Hfull now [px py].
  set (pg := handleAll _ _) in *. destruct pg as [[c s] r t].
  cbn [pageApp nextRowInput store] in *.
  rewrite Hfull in Hnext, Hrows.
  change (Z.min (Z.of_nat 215 + 1) 215) with 215%Z in Hnext. subst r.
  cbn [handle]. unfold onClick. cbn [pageApp store]. rewrite Hmode. cbn [isPan].
  unfold addPointAtPosition. cbn [pageApp nextRowInput store canvasManager].
  destruct (Z.ltb_spec 215 1); [lia|]. destruct (Z.ltb_spec 215 215); [lia|].
  cbn [orb].
  assert (Hused : hasRowNum 215 s = true).
  { unfold hasRowNum. apply existsb_rowNum. fold (rows s). rewrite Hrows.
    apply In_first_rows. lia. }
  rewrite Hused. done.
Qed.
End Placement.

(** ** Rendering, restoring, exporting *)

Section Rendering.
Context {num : Type} `{!Number num}.
Implicit Types (c : CanvasManager num) (s : Store num) (app : App num)
  (p : PointData num).

Lemma fold_createPointShape_other (l : list (PointData num)) c s (id : string) :
  ~ In id (map Point.id l) ->
  pointShapes (fold_left (fun c' point => createPointShape point c' s) l c) !! id
  = pointShapes c !! id.
Proof.
  revert c. induction l as [|q l IH]; intros c Hnot; [done|].
  simpl in *. rewrite IH by tauto.
  unfold createPointShape. cbn. apply lookup_insert_ne. tauto.
Qed.

Lemma fold_createPointShape_keys (l : list (PointData num)) c s (id : string) :
  is_Some (pointShapes (fold_left (fun c' point => createPointShape point c' s) l c)
             !! id)
  <-> is_Some (pointShapes c !! id) \/ exists p, In p l /\ Point.id p = id.
Proof.
  revert c. induction l as [|q l IH]; intros c; simpl.
  - split; [by left | intros [H|(p & [] & _)]; done].
  - rewrite IH. unfold createPointShape. cbn.
    destruct (decide (Point.id q = id)) as [<-|Hne].
    + rewrite lookup_insert_eq. split; [|by left].
      intros _. right. exists q. split; [by left | done].
    + rewrite lookup_insert_ne by done. split.
      * intros [H|(p & Hp & Hid)]; [by left | right].
        exists p. split; [by right | done].
      * intros [H|(p & [->|Hp] & Hid)]; [by left | done | right].
        by exists p.
Qed.

Lemma fold_createPointShape_values (l : list (PointData num)) c s :
  NoDup (map Point.id l) ->
  forall p, In p l ->
    pointShapes (fold_left (fun c' point => createPointShape point c' s) l c)
      !! Point.id p = Some (shapeOf p s).
Proof.
  revert c. induction l as [|q l IH]; intros c Hnd p Hp; [done|].
  simpl in *. apply NoDup_cons in Hnd as [Hq Hnd].
  destruct Hp as [->|Hp]; [|by apply IH].
  rewrite fold_createPointShape_other.
  - apply createPointShape_lookup.
  - intros Hin. apply Hq. by apply list_elem_of_In.
Qed.

(** X17: [renderAllPoints] discards the markers there were and leaves one
    marker under the id of every point of the store, and none under any
    other id.  When the points' ids are distinct, every point has its own
    marker, at the point's coordinates, labelled with its row and sized for
    the current scale.  The same holds after a confirmed import. *)
Theorem renderAllPoints_shows_points (c : CanvasManager num) (s : Store num) :
  (forall id, is_Some (pointShapes (renderAllPoints c s) !! id)
              <-> exists p, In p (points s) /\ Point.id p = id)
  /\ (NoDup (map Point.id (points s)) -> sceneMatches (mkApp (renderAllPoints c s) s))
  /\ (forall env data,
        let app' := handleJSONImport env (ParsedArray data) true (mkApp c s) in
        (forall id, is_Some (pointShapes (canvasManager app') !! id)
                    <-> exists p, In p (points (store app')) /\ Point.id p = id)
        /\ (NoDup (map Point.id (points (store app'))) -> sceneMatches app')).
Proof.
  assert (Hkeys : forall c0 s0 id,
            is_Some (pointShapes (renderAllPoints c0 s0) !! id)
            <-> exists p, In p (points s0) /\ Point.id p = id).
  { intros c0 s0 id. unfold renderAllPoints.
    rewrite fold_createPointShape_keys. cbn. rewrite lookup_empty.
    split; [intros [[? [=]]|H]; done | by right]. }
  assert (Hscene : forall c0 s0, NoDup (map Point.id (points s0)) ->
            sceneMatches (mkApp (renderAllPoints c0 s0) s0)).
  { intros c0 s0 Hnd. split; cbn [canvasManager store].
    - intros p Hp. exists (shapeOf p s0). split.
      + unfold renderAllPoints. by apply fold_createPointShape_values.
      + by repeat split.
    - intros id m Hm. apply (proj1 (Hkeys c0 s0 id)). by eexists. }
  split_and!; [apply Hkeys | apply Hscene |].
  intros env data. cbn zeta. unfold handleJSONImport. cbn [canvasManager store].
  split; [apply Hkeys | apply Hscene].
Qed.

(** X18: [loadSavedPoints] on a canvas without markers.  When storage holds
    an array, the store's list becomes that array and, if its ids are
    distinct, the scene shows exactly its points; when storage holds
    nothing, or something that is not a JSON array, the application is left
    as it was. *)
Theorem loadSavedPoints_restores (app : App num) :
  pointShapes (canvasManager app) = ∅ ->
  (forall l, savedPoints (store app) = Some (PointArray l) ->
     points (store (loadSavedPoints app)) = l
     /\ (NoDup (map Point.id l) -> sceneMatches (loadSavedPoints app)))
  /\ (savedPoints (store app) = None \/ savedPoints (store app) = Some NotJSON
      \/ savedPoints (store app) = Some NotArray ->
      loadSavedPoints app = app).
Proof.
  destruct app as [c s]. cbn [canvasManager store]. intros Hempty. split.
  - intros l Hl. unfold loadSavedPoints, loadFromLocal. cbn [store canvasManager].
    rewrite Hl. destruct l as [|q l].
    + cbn. split; [done|]. intros _. split; cbn; [intros p []|].
      intros id m Hm. rewrite Hempty, lookup_empty in Hm. done.
    + cbn [length Nat.ltb Nat.leb store]. split; [done|]. intros Hnd.
      destruct (renderAllPoints_shows_points c (notify (set_points (q :: l) s)))
        as (_ & Hscene & _).
      by apply Hscene.
  - unfold loadSavedPoints, loadFromLocal. cbn [store canvasManager].
    intros [ -> | [ -> | -> ] ]; done.
Qed.

(** X19: what [exportFullData] writes.  There is one record per point, in
    list order, with the point's row, coordinates and size.  With the
    placeholder dataset that [loadPlateData] installs when no dataset file
    is found, a point on a row of 1..215 is exported with plate "Point n"
    and the single signal -70; with a fetched dataset, a point whose row
    lies beyond it (or below 1) is exported without plate and signals, and
    a point on row n within it carries the dataset's n-th record. *)
Theorem exportFullData_records (fetched : option (list (PlateData num)))
    (s : Store num) (i : nat) (p : PointData num) :
  points s !! i = Some p ->
  let s' := loadPlateData fetched s in
  let r := Point.rowNum p in
  length (exportFullData s') = length (points s)
  /\ exists rec,
       exportFullData s' !! i = Some rec
       /\ Exported.row rec = r /\ Exported.x rec = Point.x p
       /\ Exported.y rec = Point.y p /\ Exported.size rec = Point.size p
       /\ (fetched = None -> 1 <= r <= 215 ->
           Exported.plate rec = Some ("Point " +:+ showZ r)
           /\ Exported.signals rec = Some [("Signal", lit (-70))])
       /\ (forall data, fetched = Some data ->
             r < 1 \/ Z.of_nat (length data) < r ->
             Exported.plate rec = None /\ Exported.signals rec = None)
       /\ (forall data d, fetched = Some data -> 1 <= r ->
             data !! Z.to_nat (r - 1) = Some d ->
             Exported.plate rec = Some (plate d)
             /\ Exported.signals rec = Some (signals d)).
Proof.
  intros Hp. cbn zeta.
  assert (Hpts : points (loadPlateData fetched s) = points s) by (by destruct fetched).
  unfold exportFullData. rewrite Hpts, length_map. split; [done|].
  change (map ?f (points s)) with (f <$> points s).
  rewrite list_lookup_fmap, Hp. cbn [fmap option_fmap option_map].
  eexists. split; [reflexivity|]. cbn [Exported.row Exported.x Exported.y
    Exported.size Exported.plate Exported.signals].
  split_and!; try reflexivity.
  - intros -> Hr. unfold getPlateData, loadPlateData, setExcelData. cbn [excelData notify].
    destruct (Z.ltb_spec (Point.rowNum p - 1) 0); [lia|].
    unfold placeholderData. change (map ?f (seq 1 215)) with (f <$> seq 1 215).
    rewrite list_lookup_fmap, lookup_seq_lt by lia.
    cbn [fmap option_fmap option_map plate signals].
    replace (Z.of_nat (1 + Z.to_nat (Point.rowNum p - 1))) with (Point.rowNum p) by lia.
    done.
  - intros data -> Hout. unfold getPlateData, loadPlateData, setExcelData.
    cbn [excelData notify].
    destruct (Z.ltb_spec (Point.rowNum p - 1) 0); [done|].
    rewrite lookup_ge_None_2 by lia. done.
  - intros data d -> Hr Hd. unfold getPlateData, loadPlateData, setExcelData.
    cbn [excelData notify].
    destruct (Z.ltb_spec (Point.rowNum p - 1) 0); [lia|]. by rewrite Hd.
Qed.

(** X20: the stored image.  [setImageBase64] always sets the store's image
    and notifies once; it writes a non-empty image to storage when the write
    succeeds, after which [loadImageFromLocal] in any session returns that
    image and sets it; a null or empty image, or a failed write, leaves the
    stored image as it was.  With nothing stored, [loadImageFromLocal]
    returns null and changes nothing. *)
Theorem image_persistence (b : string) (saved : option string) (s s2 : Store num) :
  b <> "" ->
  (forall base64 throws,
     imageBase64 (snd (setImageBase64 base64 throws saved s)) = base64
     /\ notified (snd (setImageBase64 base64 throws saved s)) = S (notified s)
     /\ points (snd (setImageBase64 base64 throws saved s)) = points s)
  /\ (let saved' := fst (setImageBase64 (Some b) false saved s) in
      fst (loadImageFromLocal saved' s2) = Some b
      /\ imageBase64 (snd (loadImageFromLocal saved' s2)) = Some b
      /\ notified (snd (loadImageFromLocal saved' s2)) = notified s2)
  /\ fst (setImageBase64 (Some b) true saved s) = saved
  /\ fst (setImageBase64 None false saved s) = saved
  /\ fst (setImageBase64 (Some "") false saved s) = saved
  /\ loadImageFromLocal None s2 = (None, s2)
  /\ loadImageFromLocal (Some "") s2 = (None, s2).
Proof.
  intros Hb. unfold setImageBase64, loadImageFromLocal. cbn [fst snd].
  rewrite !decide_False by done. split_and!; done.
Qed.
End Rendering.


(** ** Further runs *)

Section MoreRuns.
Local Open Scope Q_scope.

Lemma freshPage_sound (width height : Q) : pageSound (freshPage width height).
Proof.
  unfold pageSound, appSound, layersFollow, imageHasSize. cbn.
  split_and!; try done; constructor.
Qed.

Lemma freshPage_tidy (width height : Q) : pageTidy (freshPage width height).
Proof.
  unfold pageTidy, appTidy, placedIds, sceneMatches. cbn.
  split_and!; try by constructor.
  - intros p [].
  - intros id m Hm. by rewrite lookup_empty in Hm.
Qed.

(** After [someOps], a new session restores the one point that is left. *)
Lemma storage_restores_points_witness :
  restoredFrom (runOps someOps emptyStore) = points (runOps someOps emptyStore).
Proof. apply storage_restores_points; reflexivity. Defined.

(** The same operations over a full storage leave it empty. *)
Lemma full_storage_is_harmless_witness :
  savedPoints (runOps someOps (withQuota true emptyStore)) = savedPoints emptyStore
  /\ memory (runOps someOps (withQuota true emptyStore))
     = memory (runOps someOps (withQuota false emptyStore)).
Proof.
  apply full_storage_is_harmless. repeat constructor; simpl; tauto.
Defined.

(** With a point on row 1, row 2 is suggested and accepted. *)
Lemma suggested_row_is_accepted_witness :
  let s := addPoint pointA emptyStore in
  let p := Point.mk "c_2_1700000000009" 0 0 24 2 in
  hasRowNum 2 (addPoint p s) = true.
Proof.
  cbn zeta.
  refine (proj1 (proj2 (proj1 (suggested_row_is_accepted
                                 (Point.mk "c_2_1700000000009" 0 0 24 2)
                                 (addPoint pointA emptyStore) _) _))).
  - reflexivity.
  - exists 2%Z. split; [lia|]. simpl. lia.
Defined.

(** Zooming in and out again from scale 1. *)
Lemma zoom_composes_witness :
  sameView (state (store (zoom 0.8 (zoom 1.25 app200)))) (state (store app200)).
Proof.
  refine (proj2 (proj2 (zoom_composes app200 1.25 0.8 _ _)) _).
  - split; discriminate.
  - split; discriminate.
  - discriminate.
Defined.

(** One notch up and one notch down at (40, 40), from scale 1. *)
Lemma wheel_up_down_drifts_witness :
  scale (state (store (onWheel 3 (Some (40, 40)) (onWheel (-3) (Some (40, 40)) app200))))
  == 0.9968.
Proof.
  refine (proj1 (wheel_up_down_drifts app200 (-3) 3 40 40 _ _ _ _ _)).
  - split; discriminate.
  - reflexivity.
  - discriminate.
  - discriminate.
  - discriminate.
Defined.


(** In draw mode a press and a move leave the application alone. *)
Lemma no_pan_outside_pan_mode_witness :
  onMouseMove (Some (25, 45)) (onMouseDown 0 (Some (5, 5)) app200) = app200.
Proof.
  refine (proj2 (no_pan_outside_pan_mode app200 0 (Some (5, 5)) (Some (25, 45)) _ _)).
  - reflexivity.
  - by left.
Defined.

(** Fitting after a zoom gives the view of fitting at once. *)
Lemma fitToContent_forgets_view_witness :
  scale (state (store (fitToContent (zoom 2 appWithImage))))
  = scale (state (store (fitToContent appWithImage))).
Proof.
  pose proof (fitToContent_forgets_view appWithImage (zoom 2 appWithImage)
                (1000, 1000) eq_refl eq_refl eq_refl eq_refl) as (H & _).
  exact (f_equal (fun v => fst (fst v)) H).
Defined.

(** At scale 1 the display shows a percentage in range. *)
Lemma zoom_display_range_witness :
  exists z : Z,
    updateZoomDisplay emptyStore = showZ z +:+ "%"
    /\ (10 <= z <= 600)%Z
    /\ Qabs (inject_Z z - scale (state emptyStore) * 100) <= 1 # 2.
Proof.
  refine (proj1 (zoom_display_range emptyStore _)). split; discriminate.
Defined.

(** [someEvents] on a fresh page, with the import of two items on one row
    added: the scale stays in range. *)
Lemma session_stays_sound_witness :
  let evs := someEvents ++ [ImportFile env0
                              (ParsedArray [Item.mk None 1 2 None (Some 5%Z) None;
                                            Item.mk None 3 4 None (Some 5%Z) None])
                              true; ZoomOutButton] in
  0.1 <= scale (state (store (pageApp (handleAll evs (freshPage 800 600))))) <= 6.
Proof.
  cbn zeta.
  refine (proj1 (proj2 (session_stays_sound _ (freshPage 800 600) _))).
  apply freshPage_sound.
Defined.

(** [someEvents] on a fresh page. *)
Lemma session_stays_tidy_witness :
  sceneMatches (pageApp (handleAll someEvents (freshPage 800 600))).
Proof.
  refine (proj2 (proj2 (proj2 (proj2 (proj2
            (session_stays_tidy someEvents (freshPage 800 600) _ _)))))).
  - apply freshPage_tidy.
  - repeat constructor; simpl; tauto.
Defined.

(** The first click on a fresh page lands on row 1. *)
Lemma click_places_point_under_pointer_witness :
  let pg' := onClick 10 OnBackground (Some (100.4, 50.5)) (freshPage 800 600) in
  nextRowInput pg' = getNextAvailableRow (store (pageApp pg')).
Proof.
  cbn zeta.
  refine (proj1 (proj2 (proj2 (proj2 (proj2
            (click_places_point_under_pointer 10 100.4 50.5 (freshPage 800 600)
               _ _ _ _ _)))))).
  - reflexivity.
  - split; reflexivity.
  - reflexivity.
  - vm_compute. split; discriminate.
  - vm_compute. tauto.
Defined.

(** A click on the stage without a pointer position is ignored. *)
Lemma rejected_click_changes_nothing_witness :
  onClick 10 OnStage None (freshPage 800 600) = freshPage 800 600.
Proof.
  refine (proj1 (proj2 (rejected_click_changes_nothing 10 OnStage (0, 0)
                          (freshPage 800 600) _))).
  intros id. discriminate.
Defined.

(** Three clicks fill rows 1, 2 and 3. *)
Lemma clicks_fill_rows_in_order_witness :
  let clicks := [(10%Z, (100, 50)); (11%Z, (100, 50)); (12%Z, (3, 400))] in
  rows (store (pageApp (handleAll (backgroundClicks clicks) (freshPage 800 600))))
  = [1; 2; 3]%Z.
Proof.
  cbn zeta.
  refine (proj1 (clicks_fill_rows_in_order
                   [(10%Z, (100, 50)); (11%Z, (100, 50)); (12%Z, (3, 400))] 800 600 _)).
  simpl. lia.
Defined.

(** Two stored points come back with their markers. *)
Lemma loadSavedPoints_restores_witness :
  points (store (loadSavedPoints restoringApp)) = [pointA; pointB].
Proof.
  refine (proj1 (proj1 (loadSavedPoints_restores restoringApp _) _ _)); reflexivity.
Defined.

(** With the placeholder dataset, the point on row 1 is exported as
    "Point 1". *)
Lemma exportFullData_records_witness :
  length (exportFullData (loadPlateData None (addPoint pointA emptyStore))) = 1%nat.
Proof.
  refine (proj1 (exportFullData_records None (addPoint pointA emptyStore) 0 pointA _)).
  reflexivity.
Defined.

(** An image written in one session is read back in the next. *)
Lemma image_persistence_witness :
  fst (loadImageFromLocal
         (fst (setImageBase64 (Some "data:image/jpeg;base64,AAAA") false None emptyStore))
         emptyStore)
  = Some "data:image/jpeg;base64,AAAA".
Proof.
  refine (proj1 (proj1 (proj2 (image_persistence "data:image/jpeg;base64,AAAA"
                                 None emptyStore emptyStore _)))).
  discriminate.
Defined.
End MoreRuns.
